(** * Inventory manager: the persistence layer of [db_util.py]

    A shallow embedding of [InventoryDB] (users directory, inventory and
    ender-chest snapshots) together with the fragment of SQLite and of
    Python's [json] module that its statements and calls rely on.

    Conventions.
    - A Python [str] is the list of its code points ([list N]); [lit]
      embeds an ASCII literal.
    - A fetched column is an [option]: [None] is SQL NULL / Python [None].
      A column declared TEXT holds NULL or a text.  A column declared
      INTEGER holds NULL, an integer, or what SQLite kept because it could
      not convert it (a text that is no number, a real, a blob): see
      [pynum].  On such a value [int(...)] may raise, and the per-row
      [try] of the decoder then skips the row.
    - A query returns its rows: failures of the statement itself (an
      unreadable file, a text that is not valid UTF-8, a [LIKE] pattern
      over the length limit) raise out of the operation and are not part
      of the model.
    - The [users] table is a finite map keyed by its primary key [xuid];
      the two snapshot tables are lists of [(rowid, row)] in rowid order.
      A [SELECT] without [ORDER BY] returns rows in that order; statements
      about query results are made up to permutation where the claim is.
    - Every operation is a function from store to store: one call runs
      to completion before the next, as under the write lock.
    - Live values are the ones the engine's typed API returns: integers
      within SQLite's 64-bit range, texts that are valid Unicode.
    - [json.loads] follows CPython's decoder; [None] stands for any
      exception it raises.  Its loops run on fuel taken from the length
      of the text: one unit per character of a string and per element of
      an array or object.  Nesting is bounded by the recursion limit and
      an integer literal by the limit on the digits of [int(text)]. *)

From stdpp Require Import base option list gmap sorting numbers strings.
From Stdlib Require Import Ascii.
From Stdlib Require DecimalFacts DecimalPos DecimalN DecimalZ.

Set Warnings "-register-all".

Abbreviation str := (list N).

(** ** Python strings *)

Definition lit (s : string) : str := N_of_ascii <$> String.list_ascii_of_string s.

Definition str_eqb (a b : str) : bool := bool_decide (a = b).

(** Python truthiness of an optional string: [None] and [""] are falsy. *)
Definition truthy (o : option str) : bool :=
  match o with
  | Some (_ :: _) => true
  | _ => false
  end.

(** [x or d] on an optional string. *)
Definition str_or (o : option str) (d : str) : str :=
  match o with
  | Some (c :: s) => c :: s
  | _ => d
  end.

(** ** SQLite text functions: [LOWER] and [LIKE] *)

Definition PERCENT : N := 37.
Definition UNDERSCORE : N := 95.

(** [LOWER] folds the 26 ASCII capitals only. *)
Definition sql_lower_char (c : N) : N :=
  if (65 <=? c)%N && (c <=? 90)%N then (c + 32)%N else c.

Definition sql_lower (s : str) : str := sql_lower_char <$> s.

(** [s LIKE p]: [%] matches any run of characters, [_] exactly one, any
    other character matches itself up to ASCII case. *)
Fixpoint like (p s : str) : bool :=
  match p with
  | [] => match s with [] => true | _ => false end
  | c :: p' =>
      if (c =? PERCENT)%N then
        (fix star (t : str) : bool :=
           like p' t || match t with [] => false | _ :: t' => star t' end) s
      else
        match s with
        | [] => false
        | d :: s' =>
            ((c =? UNDERSCORE)%N
             || (sql_lower_char c =? sql_lower_char d)%N) && like p' s'
        end
  end.

Definition NUL : N := 0.

(** What [LIKE] reads of a text: SQLite compares C strings, which end at
    the first U+0000. *)
Fixpoint until_nul (s : str) : str :=
  match s with
  | c :: r => if (c =? NUL)%N then [] else c :: until_nul r
  | [] => []
  end.

(** [WHERE LOWER(name) LIKE LOWER(?)] with the parameter [f"%{name}%"].
    [LOWER] folds the whole text; [LIKE] compares what it reads of the
    two results. *)
Definition name_matches (pattern name : str) : bool :=
  like (until_nul (sql_lower (PERCENT :: pattern ++ [PERCENT])))
       (until_nul (sql_lower name)).

Definition wildcard (c : N) : Prop := c = PERCENT ∨ c = UNDERSCORE.

(** The number of bytes of a character in UTF-8, the encoding of the
    store. *)
Definition utf8_width (c : N) : N :=
  if (c <? 128)%N then 1 else if (c <? 2048)%N then 2
  else if (c <? 65536)%N then 3 else 4.

Definition utf8_length (s : str) : N := foldr (λ c n, utf8_width c + n)%N 0%N s.

(** [SQLITE_MAX_LIKE_PATTERN_LENGTH].  [LIKE] refuses a pattern of more
    bytes and the query fails with [OperationalError]; [name_matches] is
    the comparison made for the patterns that [LIKE] accepts. *)
Definition LIKE_PATTERN_LIMIT : N := 50000.

Definition within_like_limit (pattern : str) : Prop :=
  (utf8_length (PERCENT :: pattern ++ [PERCENT]) ≤ LIKE_PATTERN_LIMIT)%N.

(** ** The users table *)

(** The dataclass [User]. *)
Record User := mkUser {
  user_xuid : str;
  user_name : str;
  user_last_join : Z;
  user_last_leave : Z
}.

(** A row of [users] without its key: [name], [last_join], [last_leave]. *)
Record UserRow := mkUserRow {
  row_name : str;
  row_last_join : Z;
  row_last_leave : Z
}.

Definition user_of_row (kv : str * UserRow) : User :=
  mkUser kv.1 (row_name kv.2) (row_last_join kv.2) (row_last_leave kv.2).

(** [ORDER BY last_join DESC]. *)
Definition joined_after (a b : User) : Prop :=
  (user_last_join b ≤ user_last_join a)%Z.

Global Instance joined_after_dec a b : Decision (joined_after a b).
Proof. unfold joined_after. apply _. Defined.


(** ** Python's [json] module, as far as the snapshot codec uses it *)

(** Values produced by [json.loads].  A float is kept as the literal it
    was read from; its numeric value is not needed here. *)
Inductive json :=
| JNull
| JBool (b : bool)
| JInt (z : Z)
| JFloat (literal : str)
| JStr (s : str)
| JArr (items : list json)
| JObj (pairs : list (str * json)).

Definition QUOTE : N := 34.
Definition BACKSLASH : N := 92.

(** *** [json.dumps] (default options: [ensure_ascii], separators
    [", "] and [": "]) *)

Definition hex_digit (n : N) : N :=
  if (n <? 10)%N then (48 + n)%N else (87 + n)%N.

(** ['{0:04x}'.format(n)] for [n < 0x10000]. *)
Definition hex4 (n : N) : str :=
  [hex_digit ((n / 4096) `mod` 16); hex_digit ((n / 256) `mod` 16);
   hex_digit ((n / 16) `mod` 16); hex_digit (n `mod` 16)]%N.

Definition escape_char (c : N) : str :=
  if (c =? BACKSLASH)%N then [BACKSLASH; BACKSLASH]
  else if (c =? QUOTE)%N then [BACKSLASH; QUOTE]
  else if (c =? 8)%N then [BACKSLASH; 98%N]
  else if (c =? 12)%N then [BACKSLASH; 102%N]
  else if (c =? 10)%N then [BACKSLASH; 110%N]
  else if (c =? 13)%N then [BACKSLASH; 114%N]
  else if (c =? 9)%N then [BACKSLASH; 116%N]
  else if (32 <=? c)%N && (c <=? 126)%N then [c]
  else if (c <? 65536)%N then BACKSLASH :: 117%N :: hex4 c
  else
    let n := (c - 65536)%N in
    let s1 := N.lor 55296 (N.land (N.shiftr n 10) 1023) in
    let s2 := N.lor 56320 (N.land n 1023) in
    (BACKSLASH :: 117%N :: hex4 s1) ++ (BACKSLASH :: 117%N :: hex4 s2).

Definition encode_basestring_ascii (s : str) : str :=
  QUOTE :: concat (escape_char <$> s) ++ [QUOTE].

Fixpoint digits_of_uint (u : Decimal.uint) : str :=
  match u with
  | Decimal.Nil => []
  | Decimal.D0 u => 48%N :: digits_of_uint u
  | Decimal.D1 u => 49%N :: digits_of_uint u
  | Decimal.D2 u => 50%N :: digits_of_uint u
  | Decimal.D3 u => 51%N :: digits_of_uint u
  | Decimal.D4 u => 52%N :: digits_of_uint u
  | Decimal.D5 u => 53%N :: digits_of_uint u
  | Decimal.D6 u => 54%N :: digits_of_uint u
  | Decimal.D7 u => 55%N :: digits_of_uint u
  | Decimal.D8 u => 56%N :: digits_of_uint u
  | Decimal.D9 u => 57%N :: digits_of_uint u
  end.

(** [str(z)] of a Python int. *)
Definition str_of_int (z : Z) : str :=
  match Z.to_int z with
  | Decimal.Pos u => digits_of_uint u
  | Decimal.Neg u => 45%N :: digits_of_uint u
  end.

(** [sep.join(parts)]. *)
Fixpoint join (sep : str) (parts : list str) : str :=
  match parts with
  | [] => []
  | p :: rest =>
      match rest with
      | [] => p
      | _ :: _ => p ++ sep ++ join sep rest
      end
  end.

(** The Python values this program hands to [json.dumps]: the
    [enchants] attribute (a [dict] from [str] to [int], in insertion
    order), the [lore] attribute (a [list] of [str]), or [None]. *)
Inductive pyval :=
| PNone
| PDict (d : list (str * Z))
| PList (l : list str).

Definition dumps_pair (kv : str * Z) : str :=
  encode_basestring_ascii kv.1 ++ lit ": " ++ str_of_int kv.2.

Definition json_dumps (v : pyval) : str :=
  match v with
  | PNone => lit "null"
  | PDict d => lit "{" ++ join (lit ", ") (dumps_pair <$> d) ++ lit "}"
  | PList l => lit "[" ++ join (lit ", ") (encode_basestring_ascii <$> l) ++ lit "]"
  end.

(** What [json.loads] gives back for such a value. *)
Definition json_of_pyval (v : pyval) : json :=
  match v with
  | PNone => JNull
  | PDict d => JObj ((λ kv : str * Z, (kv.1, JInt kv.2)) <$> d)
  | PList l => JArr (JStr <$> l)
  end.

(** *** [json.loads] (default decoder, strict mode, C scanner) *)

Definition is_ws (c : N) : bool :=
  (c =? 32)%N || (c =? 9)%N || (c =? 10)%N || (c =? 13)%N.

Fixpoint skip_ws (s : str) : str :=
  match s with
  | c :: r => if is_ws c then skip_ws r else s
  | [] => []
  end.

Definition is_digit (c : N) : bool := (48 <=? c)%N && (c <=? 57)%N.

Definition hex_value (c : N) : option N :=
  if is_digit c then Some (c - 48)%N
  else if (97 <=? c)%N && (c <=? 102)%N then Some (c - 87)%N
  else if (65 <=? c)%N && (c <=? 70)%N then Some (c - 55)%N
  else None.

(** The four hex digits after [\u]. *)
Definition decode_uXXXX (s : str) : option (N * str) :=
  match s with
  | a :: b :: c :: d :: r =>
      match hex_value a, hex_value b, hex_value c, hex_value d with
      | Some x3, Some x2, Some x1, Some x0 =>
          Some ((((x3 * 16 + x2) * 16 + x1) * 16 + x0)%N, r)
      | _, _, _, _ => None
      end
  | _ => None
  end.

(** The table [BACKSLASH] of one-letter escapes. *)
Definition unescape (e : N) : option N :=
  if (e =? QUOTE)%N then Some QUOTE
  else if (e =? BACKSLASH)%N then Some BACKSLASH
  else if (e =? 47)%N then Some 47%N
  else if (e =? 98)%N then Some 8%N
  else if (e =? 102)%N then Some 12%N
  else if (e =? 110)%N then Some 10%N
  else if (e =? 114)%N then Some 13%N
  else if (e =? 116)%N then Some 9%N
  else None.

Definition is_high_surrogate (c : N) : bool := (55296 <=? c)%N && (c <=? 56319)%N.
Definition is_low_surrogate (c : N) : bool := (56320 <=? c)%N && (c <=? 57343)%N.

Definition join_surrogates (hi lo : N) : N :=
  (65536 + N.lor (N.shiftl (hi - 55296) 10) (lo - 56320))%N.

(** After a [\uXXXX] escape that gave [uni]: a high surrogate directly
    followed by the escape of a low surrogate is joined with it. *)
Definition scan_surrogate (uni : N) (r : str) : option (N * str) :=
  if is_high_surrogate uni then
    match r with
    | b :: u :: r' =>
        if (b =? BACKSLASH)%N && (u =? 117)%N then
          match decode_uXXXX r' with
          | Some (uni2, r'') =>
              if is_low_surrogate uni2
              then Some (join_surrogates uni uni2, r'')
              else Some (uni, r)
          | None => None
          end
        else Some (uni, r)
    | _ => Some (uni, r)
    end
  else Some (uni, r).

(** [scanstring]: the text after an opening quote, up to the closing
    one.  [None] stands for [JSONDecodeError]; the fuel bounds the number
    of characters read. *)
Fixpoint scanstring (fuel : nat) (s : str) : option (str * str) :=
  match fuel with
  | O => None
  | S fuel' =>
      let continue (ch : N) (rest : str) :=
        match scanstring fuel' rest with
        | Some (t, rest') => Some (ch :: t, rest')
        | None => None
        end in
      match s with
      | [] => None
      | c :: r =>
          if (c =? QUOTE)%N then Some ([], r)
          else if (c =? BACKSLASH)%N then
            match r with
            | [] => None
            | e :: r1 =>
                if (e =? 117)%N then
                  match decode_uXXXX r1 with
                  | Some (uni, r2) =>
                      match scan_surrogate uni r2 with
                      | Some (ch, r3) => continue ch r3
                      | None => None
                      end
                  | None => None
                  end
                else
                  match unescape e with
                  | Some ch => continue ch r1
                  | None => None
                  end
            end
          else if (c <? 32)%N then None
          else continue c r
      end
  end.

Fixpoint span_digits (s : str) : str * str :=
  match s with
  | c :: r =>
      if is_digit c then let '(ds, r') := span_digits r in (c :: ds, r')
      else ([], s)
  | [] => ([], [])
  end.

Fixpoint uint_of_digits (ds : str) : Decimal.uint :=
  match ds with
  | [] => Decimal.Nil
  | c :: r =>
      let u := uint_of_digits r in
      if (c =? 48)%N then Decimal.D0 u
      else if (c =? 49)%N then Decimal.D1 u
      else if (c =? 50)%N then Decimal.D2 u
      else if (c =? 51)%N then Decimal.D3 u
      else if (c =? 52)%N then Decimal.D4 u
      else if (c =? 53)%N then Decimal.D5 u
      else if (c =? 54)%N then Decimal.D6 u
      else if (c =? 55)%N then Decimal.D7 u
      else if (c =? 56)%N then Decimal.D8 u
      else Decimal.D9 u
  end.

(** [int(text)] for an optional sign and a run of decimal digits. *)
Definition int_of_digits (negative : bool) (ds : str) : Z :=
  Z.of_int (if negative then Decimal.Neg (uint_of_digits ds)
            else Decimal.Pos (uint_of_digits ds)).

(** The groups of [NUMBER_RE]: an optional minus sign and either a
    single zero or a non-zero digit followed by digits; an optional
    fraction (a dot and at least one digit); an optional exponent (e or E,
    an optional sign, at least one digit). *)
Definition int_part (s : str) : option (str * str) :=
  match s with
  | c :: r =>
      if (c =? 48)%N then Some ([c], r)
      else if is_digit c then let '(ds, r') := span_digits r in Some (c :: ds, r')
      else None
  | [] => None
  end.

Definition frac_part (s : str) : option str * str :=
  match s with
  | dot :: d :: r =>
      if (dot =? 46)%N && is_digit d
      then let '(ds, r') := span_digits r in (Some (dot :: d :: ds), r')
      else (None, s)
  | _ => (None, s)
  end.

Definition exp_digits (pre : str) (s whole : str) : option str * str :=
  match s with
  | d :: r =>
      if is_digit d
      then let '(ds, r') := span_digits r in (Some (pre ++ d :: ds), r')
      else (None, whole)
  | [] => (None, whole)
  end.

Definition exp_part (s : str) : option str * str :=
  match s with
  | e :: r =>
      if (e =? 101)%N || (e =? 69)%N then
        match r with
        | sg :: r' =>
            if (sg =? 45)%N || (sg =? 43)%N then exp_digits [e; sg] r' s
            else exp_digits [e] r s
        | [] => (None, s)
        end
      else (None, s)
  | [] => (None, s)
  end.

(** [sys.int_info.default_max_str_digits]: [int(text)] raises
    [ValueError] for a text of more decimal digits. *)
Definition MAX_STR_DIGITS : Z := 4300.

(** [NUMBER_RE.match] and the conversion of what it matched; [None] when
    nothing matches or the conversion raises.  Without fraction and
    exponent the text is converted by [int], with one by [float]. *)
Definition match_number (s : str) : option (json * str) :=
  let '(negative, s1) :=
    match s with
    | c :: r => if (c =? 45)%N then (true, r) else (false, s)
    | [] => (false, s)
    end in
  match int_part s1 with
  | None => None
  | Some (ds, r) =>
      let '(frac, r1) := frac_part r in
      let '(exp, r2) := exp_part r1 in
      match frac, exp with
      | None, None =>
          if (MAX_STR_DIGITS <? Z.of_nat (length ds))%Z then None
          else Some (JInt (int_of_digits negative ds), r2)
      | _, _ =>
          Some (JFloat ((if negative then [45%N] else []) ++ ds
                        ++ default [] frac ++ default [] exp), r2)
      end
  end.

(** [s[idx:idx+len(p)] == p], returning what follows. *)
Fixpoint strip_prefix (p s : str) : option str :=
  match p, s with
  | [], _ => Some s
  | a :: p', b :: s' => if (a =? b)%N then strip_prefix p' s' else None
  | _ :: _, [] => None
  end.

(** [dict(pairs)]: a repeated key keeps its first position and takes the
    last value. *)
Fixpoint dict_set (k : str) (v : json) (d : list (str * json)) : list (str * json) :=
  match d with
  | [] => [(k, v)]
  | (k', v') :: d' =>
      if bool_decide (k = k') then (k', v) :: d' else (k', v') :: dict_set k v d'
  end.

Definition dict_of_pairs (ps : list (str * json)) : list (str * json) :=
  fold_left (λ d kv, dict_set kv.1 kv.2 d) ps [].

(** The loop of [JSONArray] after the opening bracket, positioned at a
    value; [scan_once] reads one value. *)
Fixpoint parse_elements (scan_once : str → option (json * str))
    (fuel : nat) (s : str) : option (list json * str) :=
  match fuel with
  | O => None
  | S fuel' =>
      match scan_once s with
      | None => None
      | Some (v, r) =>
          match skip_ws r with
          | c :: r' =>
              if (c =? 93)%N then Some ([v], r')
              else if (c =? 44)%N then
                match parse_elements scan_once fuel' (skip_ws r') with
                | Some (vs, r'') => Some (v :: vs, r'')
                | None => None
                end
              else None
          | [] => None
          end
      end
  end.

(** The loop of [JSONObject], positioned at the opening quote of a
    property name. *)
Fixpoint parse_members (scan_once : str → option (json * str))
    (fuel : nat) (s : str) : option (list (str * json) * str) :=
  match fuel with
  | O => None
  | S fuel' =>
      match s with
      | q :: s1 =>
          if (q =? QUOTE)%N then
            match scanstring (length s1) s1 with
            | None => None
            | Some (key, r) =>
                match skip_ws r with
                | colon :: r1 =>
                    if (colon =? 58)%N then
                      match scan_once (skip_ws r1) with
                      | None => None
                      | Some (v, r2) =>
                          match skip_ws r2 with
                          | c :: r3 =>
                              if (c =? 125)%N then Some ([(key, v)], r3)
                              else if (c =? 44)%N then
                                match parse_members scan_once fuel' (skip_ws r3) with
                                | Some (kvs, r4) => Some ((key, v) :: kvs, r4)
                                | None => None
                                end
                              else None
                          | [] => None
                          end
                      end
                    else None
                | [] => None
                end
            end
          else None
      | [] => None
      end
  end.

Definition scan_constant (name : string) (v : json) (s : str) : option (json * str) :=
  match strip_prefix (lit name) s with
  | Some r => Some (v, r)
  | None => None
  end.

(** [scan_once] at a non-blank position.  [depth] is the number of
    nested calls still allowed: each array or object reads its members
    one level further down. *)
Fixpoint scan_once (depth : nat) (s : str) : option (json * str) :=
  match depth with
  | O => None
  | S depth' =>
      match s with
      | [] => None
      | c :: r =>
          if (c =? QUOTE)%N then
            match scanstring (length r) r with
            | Some (t, r') => Some (JStr t, r')
            | None => None
            end
          else if (c =? 123)%N then
            match skip_ws r with
            | c1 :: r1 =>
                if (c1 =? 125)%N then Some (JObj [], r1)
                else
                  match parse_members (scan_once depth') (length r) (c1 :: r1) with
                  | Some (kvs, r') => Some (JObj (dict_of_pairs kvs), r')
                  | None => None
                  end
            | [] => None
            end
          else if (c =? 91)%N then
            match skip_ws r with
            | c1 :: r1 =>
                if (c1 =? 93)%N then Some (JArr [], r1)
                else
                  match parse_elements (scan_once depth') (length r) (c1 :: r1) with
                  | Some (vs, r') => Some (JArr vs, r')
                  | None => None
                  end
            | [] => None
            end
          else if (c =? 110)%N then scan_constant "null" JNull s
          else if (c =? 116)%N then scan_constant "true" (JBool true) s
          else if (c =? 102)%N then scan_constant "false" (JBool false) s
          else
            match match_number s with
            | Some res => Some res
            | None =>
                if (c =? 78)%N then scan_constant "NaN" (JFloat (lit "NaN")) s
                else if (c =? 73)%N
                then scan_constant "Infinity" (JFloat (lit "Infinity")) s
                else if (c =? 45)%N
                then scan_constant "-Infinity" (JFloat (lit "-Infinity")) s
                else None
            end
      end
  end.

(** [s.startswith('\ufeff')]. *)
Definition starts_with_bom (s : str) : bool :=
  match s with
  | c :: _ => (c =? 65279)%N
  | [] => false
  end.

(** [sys.getrecursionlimit()] at its default.  The decoder raises
    [RecursionError] when arrays and objects are nested deeper than the
    interpreter allows; the frames already in use when the decoder is
    called lower the bound by their number, which this constant leaves
    out. *)
Definition RECURSION_LIMIT : nat := 1000.

(** [json.loads(s)] on a [str]: [None] when it raises.  A leading byte
    order mark is refused; blanks around the value are skipped; nothing
    may follow it. *)
Definition json_loads (s : str) : option json :=
  if starts_with_bom s then None
  else
    match scan_once RECURSION_LIMIT (skip_ws s) with
    | Some (v, r) =>
        match skip_ws r with
        | [] => Some v
        | _ :: _ => None
        end
    | None => None
    end.

(** ** The live player handle (the part of the engine's API that is read) *)

(** [ItemMeta]: [display_name] and [lore] may be [None]; [enchants] is a
    [dict] or [None]. *)
Record ItemMeta := mkItemMeta {
  meta_display_name : option str;
  meta_enchants : option (list (str * Z));
  meta_lore : option (list str);
  meta_is_unbreakable : bool;
  meta_damage : Z
}.

(** [ItemStack]: [item_type] is [str(item.type)]. *)
Record ItemStack := mkItemStack {
  item_type : str;
  item_amount : Z;
  item_meta : option ItemMeta;
  item_data : option Z
}.

(** A numbered container: [size] is the length, [get_item(i)] the
    [i]-th entry, [None] for an empty slot. *)
Abbreviation Inventory := (list (option ItemStack)).

Record PlayerInventory := mkPlayerInventory {
  inv_slots : Inventory;
  inv_helmet : option ItemStack;
  inv_chestplate : option ItemStack;
  inv_leggings : option ItemStack;
  inv_boots : option ItemStack;
  inv_item_in_off_hand : option ItemStack
}.

Record Player := mkPlayer {
  player_xuid : str;
  player_name : str;
  player_inventory : PlayerInventory;
  player_ender_chest : Inventory
}.

(** ** Tables *)

(** A value other than NULL in a column declared INTEGER, as [fetchall]
    returns it.  SQLite is dynamically typed: the column holds an integer
    where the written value converts to one and keeps it as it is
    otherwise, so that besides an [int] the decoder may be handed a [str],
    a [float] or a [bytes] object.  The decoder only applies [int] and
    [bool] to the value; an object that is not an [int] is recorded by
    what the two return on it: [as_int] is [int(x)], [None] when it
    raises, and [as_bool] is [bool(x)]. *)
Inductive pynum :=
| PInt (z : Z)
| PForeign (as_int : option Z) (as_bool : bool).

Global Instance pynum_eq_dec : EqDecision pynum.
Proof. solve_decision. Defined.

(** A row of [inventories], without its [id]. *)
Record InvRow := mkInvRow {
  inv_xuid : option str;
  inv_name : option str;
  inv_slot_type : option str;
  inv_slot : option pynum;
  inv_type : option str;
  inv_amount : option pynum;
  inv_damage : option pynum;
  inv_display_name : option str;
  inv_enchants : option str;
  inv_lore : option str;
  inv_unbreakable : option pynum;
  inv_data : option pynum
}.

(** A row of [ender_chests], without its [id]. *)
Record EcRow := mkEcRow {
  ec_xuid : option str;
  ec_name : option str;
  ec_slot : option pynum;
  ec_type : option str;
  ec_amount : option pynum;
  ec_damage : option pynum;
  ec_display_name : option str;
  ec_enchants : option str;
  ec_lore : option str;
  ec_unbreakable : option pynum;
  ec_data : option pynum
}.

(** A table with [id INTEGER PRIMARY KEY AUTOINCREMENT]: its rows with
    their ids, and the largest id ever handed out. *)
Record Table (R : Type) := mkTable {
  tbl_rows : list (Z * R);
  tbl_seq : Z
}.
Arguments mkTable {R} _ _.
Arguments tbl_rows {R} _.
Arguments tbl_seq {R} _.

Record DB := mkDB {
  users : gmap str UserRow;
  inventories : Table InvRow;
  ender_chests : Table EcRow
}.

(** [DELETE FROM t WHERE xuid = ?]. *)
Definition delete_where {R} (xuid_of : R → option str) (x : str) (t : Table R) : Table R :=
  mkTable (filter (λ ir, xuid_of ir.2 ≠ Some x) (tbl_rows t)) (tbl_seq t).

(** The id of the next inserted row. *)
Definition next_id {R} (t : Table R) : Z :=
  (1 + foldr Z.max (tbl_seq t) (fst <$> tbl_rows t))%Z.

(** [INSERT INTO t (...) VALUES (...)]. *)
Definition insert_row {R} (t : Table R) (r : R) : Table R :=
  let i := next_id t in mkTable (tbl_rows t ++ [(i, r)]) i.

(** [executemany]: one insert per tuple, in order. *)
Definition insert_many {R} (t : Table R) (values : list R) : Table R :=
  fold_left insert_row values t.

(** [SELECT ... FROM t WHERE xuid = ?], [fetchall]. *)
Definition select_where {R} (xuid_of : R → option str) (x : str) (t : Table R) : list R :=
  snd <$> filter (λ ir, xuid_of ir.2 = Some x) (tbl_rows t).

(** The store right after [create_tables] on a fresh file. *)
Definition empty_db : DB := mkDB ∅ (mkTable [] 0%Z) (mkTable [] 0%Z).

(** ** Identity index *)

(** [save_user]: [INSERT OR REPLACE INTO users (xuid, name, last_join)];
    the column [last_leave] takes its default. *)
Definition save_user (db : DB) (player : Player) (join_time : Z) : DB :=
  mkDB (<[player_xuid player := mkUserRow (player_name player) join_time 0]> (users db))
       (inventories db) (ender_chests db).

(** [update_user_leave_time]: [UPDATE users SET last_leave = ? WHERE xuid = ?]. *)
Definition update_user_leave_time (db : DB) (xuid : str) (leave_time : Z) : DB :=
  mkDB (alter (λ r, mkUserRow (row_name r) (row_last_join r) leave_time) xuid (users db))
       (inventories db) (ender_chests db).

(** The query shared by the two look-ups:
    [WHERE LOWER(name) LIKE LOWER(?) ORDER BY last_join DESC]. *)
Definition select_users_like (db : DB) (name : str) : list User :=
  merge_sort joined_after
    (filter (λ u, name_matches name (user_name u) = true)
            (user_of_row <$> map_to_list (users db))).

(** [get_user_by_name]: [LIMIT 1] and [fetchone]. *)
Definition get_user_by_name (db : DB) (name : str) : option User :=
  head (select_users_like db name).

(** [search_users_by_name]: [fetchall]. *)
Definition search_users_by_name (db : DB) (name : str) : list User :=
  select_users_like db name.

(** ** Snapshot codec: the encode path *)

Definition AIR : str := lit "minecraft:air".

(** The guard [if not item or str(item.type) == "minecraft:air": continue]:
    the item that gets encoded, if any. *)
Definition occupied (item : option ItemStack) : option ItemStack :=
  match item with
  | Some it => if str_eqb (item_type it) AIR then None else Some it
  | None => None
  end.

(** The metadata read from an item; the fall-backs apply when the item
    has no [item_meta]. *)
Definition extract_display_name (item : ItemStack) : option str :=
  match item_meta item with
  | Some meta => meta_display_name meta
  | None => Some []
  end.

Definition extract_enchants (item : ItemStack) : pyval :=
  match item_meta item with
  | Some meta =>
      match meta_enchants meta with Some d => PDict d | None => PNone end
  | None => PDict []
  end.

Definition extract_lore (item : ItemStack) : pyval :=
  match item_meta item with
  | Some meta =>
      match meta_lore meta with Some l => PList l | None => PNone end
  | None => PList []
  end.

Definition extract_unbreakable (item : ItemStack) : bool :=
  match item_meta item with
  | Some meta => meta_is_unbreakable meta
  | None => false
  end.

Definition extract_damage (item : ItemStack) : Z :=
  match item_meta item with
  | Some meta => meta_damage meta
  | None => 0%Z
  end.

(** The tuple appended to [values] in [save_inventory]. *)
Definition inventory_row (player : Player) (slot_type : str) (slot : Z)
    (item : ItemStack) : InvRow :=
  mkInvRow (Some (player_xuid player)) (Some (player_name player))
    (Some slot_type) (Some (PInt slot)) (Some (item_type item))
    (Some (PInt (item_amount item))) (Some (PInt (extract_damage item)))
    (extract_display_name item)
    (Some (json_dumps (extract_enchants item)))
    (Some (json_dumps (extract_lore item)))
    (Some (PInt (if extract_unbreakable item then 1 else 0)))
    (PInt <$> item_data item).

(** The tuple appended to [values] in [save_enderchest]. *)
Definition enderchest_row (player : Player) (slot : Z) (item : ItemStack) : EcRow :=
  mkEcRow (Some (player_xuid player)) (Some (player_name player))
    (Some (PInt slot)) (Some (item_type item))
    (Some (PInt (item_amount item))) (Some (PInt (extract_damage item)))
    (extract_display_name item)
    (Some (json_dumps (extract_enchants item)))
    (Some (json_dumps (extract_lore item)))
    (Some (PInt (if extract_unbreakable item then 1 else 0)))
    (PInt <$> item_data item).

(** [for i in range(size): item = get_item(i) ...], from index [i] on. *)
Fixpoint slot_values {R} (row : Z → ItemStack → R) (i : Z) (slots : Inventory) : list R :=
  match slots with
  | [] => []
  | item :: rest =>
      match occupied item with
      | Some it => row i it :: slot_values row (i + 1)%Z rest
      | None => slot_values row (i + 1)%Z rest
      end
  end.

Definition armor_items (inv : PlayerInventory) : list (str * option ItemStack) :=
  [(lit "helmet", inv_helmet inv);
   (lit "chestplate", inv_chestplate inv);
   (lit "leggings", inv_leggings inv);
   (lit "boots", inv_boots inv);
   (lit "offhand", inv_item_in_off_hand inv)].

Definition armor_values (player : Player) : list InvRow :=
  omap (λ a : str * option ItemStack,
          match occupied a.2 with
          | Some it => Some (inventory_row player a.1 0%Z it)
          | None => None
          end)
       (armor_items (player_inventory player)).

(** The list [values] built by [save_inventory]. *)
Definition inventory_values (player : Player) : list InvRow :=
  slot_values (inventory_row player (lit "slot")) 0%Z
              (inv_slots (player_inventory player))
  ++ armor_values player.

(** The list [values] built by [save_enderchest]. *)
Definition enderchest_values (player : Player) : list EcRow :=
  slot_values (enderchest_row player) 0%Z (player_ender_chest player).

(** Delete the old rows of the player, then insert the new ones. *)
Definition replace_rows {R} (xuid_of : R → option str) (x : str)
    (values : list R) (t : Table R) : Table R :=
  let t' := delete_where xuid_of x t in
  match values with
  | [] => t'
  | _ :: _ => insert_many t' values
  end.

Definition save_inventory (db : DB) (player : Player) : DB :=
  mkDB (users db)
       (replace_rows inv_xuid (player_xuid player) (inventory_values player)
                     (inventories db))
       (ender_chests db).

Definition save_enderchest (db : DB) (player : Player) : DB :=
  mkDB (users db) (inventories db)
       (replace_rows ec_xuid (player_xuid player) (enderchest_values player)
                     (ender_chests db)).

(** ** Snapshot codec: the decode path *)

(** The dict built per row by [get_inventory]. *)
Record InventoryDict := mkInventoryDict {
  d_xuid : option str;
  d_name : option str;
  d_slot_type : option str;
  d_slot : Z;
  d_type : str;
  d_amount : Z;
  d_damage : Z;
  d_display_name : str;
  d_enchants : json;
  d_lore : json;
  d_unbreakable : bool;
  d_data : option Z
}.

(** The dict built per row by [get_enderchest]. *)
Record EnderDict := mkEnderDict {
  ed_xuid : option str;
  ed_name : option str;
  ed_slot : Z;
  ed_type : str;
  ed_amount : Z;
  ed_damage : Z;
  ed_display_name : str;
  ed_enchants : json;
  ed_lore : json;
  ed_unbreakable : bool;
  ed_data : option Z
}.

(** The texts that are never parsed: [("null", "0", "")]. *)
Definition SENTINELS : list str := [lit "null"; lit "0"; lit ""].

(** One of the two JSON columns:
    [if col and col not in ("null", "0", ""): try: v = loads(col) except: v = dflt],
    with [v = dflt] to start with.  [loads] is the parser in use. *)
Definition decode_column (loads : str → option json) (dflt : json)
    (col : option str) : json :=
  match col with
  | Some s =>
      if truthy col && negb (bool_decide (s ∈ SENTINELS)) then
        match loads s with
        | Some v => v
        | None => dflt
        end
      else dflt
  | None => dflt
  end.

(** [int(x)]; [None] when it raises. *)
Definition py_int (x : pynum) : option Z :=
  match x with
  | PInt z => Some z
  | PForeign as_int _ => as_int
  end.

(** [bool(x)]. *)
Definition py_bool (x : pynum) : bool :=
  match x with
  | PInt z => negb (z =? 0)%Z
  | PForeign _ as_bool => as_bool
  end.

(** [int(x) if x is not None else dflt]; [None] when [int] raises. *)
Definition int_or (dflt : Z) (x : option pynum) : option Z :=
  match x with
  | Some v => py_int v
  | None => Some dflt
  end.

(** [int(x) if x is not None else None]; the outer [None] when [int]
    raises. *)
Definition int_or_none (x : option pynum) : option (option Z) :=
  match x with
  | Some v => Some <$> py_int v
  | None => Some None
  end.

(** The body of the per-row [try] of [get_inventory]: the dict that is
    appended to [items], or [None] when a conversion raises, in which
    case [except Exception] prints a message and goes on with the next
    row. *)
Definition decode_inventory_row (row : InvRow) : option InventoryDict :=
  let enchants := decode_column json_loads (JObj []) (inv_enchants row) in
  let lore := decode_column json_loads (JArr []) (inv_lore row) in
  slot ← int_or 0 (inv_slot row);
  amount ← int_or 1 (inv_amount row);
  damage ← int_or 0 (inv_damage row);
  data ← int_or_none (inv_data row);
  Some (mkInventoryDict (inv_xuid row) (inv_name row) (inv_slot_type row)
          slot
          (str_or (inv_type row) AIR)
          amount
          damage
          (str_or (inv_display_name row) [])
          enchants lore
          (default false (py_bool <$> inv_unbreakable row))
          data).

(** The same for [get_enderchest]. *)
Definition decode_enderchest_row (row : EcRow) : option EnderDict :=
  let enchants := decode_column json_loads (JObj []) (ec_enchants row) in
  let lore := decode_column json_loads (JArr []) (ec_lore row) in
  slot ← int_or 0 (ec_slot row);
  amount ← int_or 1 (ec_amount row);
  damage ← int_or 0 (ec_damage row);
  data ← int_or_none (ec_data row);
  Some (mkEnderDict (ec_xuid row) (ec_name row)
          slot
          (str_or (ec_type row) AIR)
          amount
          damage
          (str_or (ec_display_name row) [])
          enchants lore
          (default false (py_bool <$> ec_unbreakable row))
          data).

(** The loop over [fetchall()]: the dicts of the rows that decode, in
    row order; a row that does not is left out. *)
Definition get_inventory (db : DB) (xuid : str) : list InventoryDict :=
  omap decode_inventory_row (select_where inv_xuid xuid (inventories db)).

Definition get_enderchest (db : DB) (xuid : str) : list EnderDict :=
  omap decode_enderchest_row (select_where ec_xuid xuid (ender_chests db)).

(** ** Spec-side definitions *)

(** [p in s] on strings: the spec's "contains as a substring". *)
Fixpoint is_prefix (p s : str) : bool :=
  match p, s with
  | [], _ => true
  | a :: p', b :: s' => (a =? b)%N && is_prefix p' s'
  | _ :: _, [] => false
  end.

Fixpoint is_infix (p s : str) : bool :=
  is_prefix p s || match s with [] => false | _ :: s' => is_infix p s' end.

(** The matching rule of the amended claim: the stored name contains
    the pattern as a substring, both with the ASCII capitals folded. *)
Definition spec_name_matches (pattern name : str) : bool :=
  is_infix (sql_lower pattern) (sql_lower name).

(** The lowercase form of a character of Basic Latin or of the Latin-1
    Supplement, as [str.lower] gives it; characters beyond are not needed
    here and are left as they are. *)
Definition unicode_lower_char (c : N) : N :=
  if ((65 <=? c)%N && (c <=? 90)%N)
     || ((192 <=? c)%N && (c <=? 222)%N && negb (c =? 215)%N)
  then (c + 32)%N else c.

(** The matching rule as the spec words it: the lowercase stored name
    contains the lowercase pattern as a substring. *)
Definition lowercase_contains (pattern name : str) : bool :=
  is_infix (unicode_lower_char <$> pattern) (unicode_lower_char <$> name).

(** Every stored user, as [User] values. *)
Definition all_users (db : DB) : list User :=
  user_of_row <$> map_to_list (users db).

(** The slot record the spec describes for a non-empty item: unset
    display name, enchantments and lore read as empty. *)
Definition spec_display_name (item : ItemStack) : str :=
  match item_meta item with
  | Some meta => default [] (meta_display_name meta)
  | None => []
  end.

Definition spec_enchants (item : ItemStack) : list (str * Z) :=
  match item_meta item with
  | Some meta => default [] (meta_enchants meta)
  | None => []
  end.

Definition spec_lore (item : ItemStack) : list str :=
  match item_meta item with
  | Some meta => default [] (meta_lore meta)
  | None => []
  end.

(** The damage and the unbreakable flag of a live item are those of its
    metadata; an item without metadata is undamaged and breakable. *)
Definition spec_damage (item : ItemStack) : Z :=
  default 0%Z (meta_damage <$> item_meta item).

Definition spec_unbreakable (item : ItemStack) : bool :=
  default false (meta_is_unbreakable <$> item_meta item).

Definition spec_record (player : Player) (slot_type : str) (slot : Z)
    (item : ItemStack) : InventoryDict :=
  mkInventoryDict (Some (player_xuid player)) (Some (player_name player))
    (Some slot_type) slot (item_type item) (item_amount item)
    (spec_damage item) (spec_display_name item)
    (json_of_pyval (PDict (spec_enchants item)))
    (json_of_pyval (PList (spec_lore item)))
    (spec_unbreakable item) (item_data item).

Definition non_empty (item : ItemStack) : Prop := item_type item ≠ AIR.

Global Instance non_empty_dec item : Decision (non_empty item).
Proof. unfold non_empty. apply _. Defined.

(** The non-empty numbered slots with their indices. *)
Definition spec_numbered (slots : Inventory) : list (Z * ItemStack) :=
  omap (λ ia : nat * option ItemStack,
          match ia.2 with
          | Some it => if decide (non_empty it) then Some (Z.of_nat ia.1, it) else None
          | None => None
          end)
       (imap pair slots).

(** The non-empty equipment slots, in the fixed order. *)
Definition spec_equipment (inv : PlayerInventory) : list (str * ItemStack) :=
  omap (λ a : str * option ItemStack,
          match a.2 with
          | Some it => if decide (non_empty it) then Some (a.1, it) else None
          | None => None
          end)
       [(lit "helmet", inv_helmet inv);
        (lit "chestplate", inv_chestplate inv);
        (lit "leggings", inv_leggings inv);
        (lit "boots", inv_boots inv);
        (lit "offhand", inv_item_in_off_hand inv)].

(** The slot records of a live player: the input of the round trip. *)
Definition spec_records (player : Player) : list InventoryDict :=
  ((λ ia : Z * ItemStack, spec_record player (lit "slot") ia.1 ia.2)
     <$> spec_numbered (inv_slots (player_inventory player)))
  ++ ((λ a : str * ItemStack, spec_record player a.1 0%Z a.2)
        <$> spec_equipment (player_inventory player)).

(** Every item a live player carries: numbered slots, then equipment. *)
Definition carried_items (player : Player) : list ItemStack :=
  (snd <$> spec_numbered (inv_slots (player_inventory player)))
  ++ (snd <$> spec_equipment (player_inventory player)).

(** A Unicode scalar value: a code point that is not a surrogate. *)
Definition scalar_value (c : N) : Prop :=
  (c < 55296 ∨ 57343 < c < 1114112)%N.

Definition unicode_text (s : str) : Prop := Forall scalar_value s.

(** A signed 64-bit integer, the range of an SQLite INTEGER. *)
Definition int64 (z : Z) : Prop := (- 2 ^ 63 ≤ z < 2 ^ 63)%Z.

(** A valid item: a non-empty kind string, enchantment names that are
    pairwise distinct Unicode texts, enchantment levels that are 64-bit
    integers, lore lines that are Unicode texts. *)
Definition valid_item (item : ItemStack) : Prop :=
  item_type item ≠ []
  ∧ NoDup (fst <$> spec_enchants item)
  ∧ Forall unicode_text (fst <$> spec_enchants item)
  ∧ Forall int64 (snd <$> spec_enchants item)
  ∧ Forall unicode_text (spec_lore item).

Global Instance scalar_value_dec c : Decision (scalar_value c).
Proof. unfold scalar_value. apply _. Defined.

Global Instance int64_dec z : Decision (int64 z).
Proof. unfold int64. apply _. Defined.

Global Instance valid_item_dec item : Decision (valid_item item).
Proof. unfold valid_item, unicode_text. apply _. Defined.

(** A slot that holds nothing: no item, or the air placeholder. *)
Definition empty_slot (item : option ItemStack) : Prop :=
  match item with
  | Some it => item_type it = AIR
  | None => True
  end.

(** A live inventory with only empty slots, equipment included. *)
Definition only_empty_slots (inv : PlayerInventory) : Prop :=
  Forall empty_slot (inv_slots inv)
  ∧ empty_slot (inv_helmet inv) ∧ empty_slot (inv_chestplate inv)
  ∧ empty_slot (inv_leggings inv) ∧ empty_slot (inv_boots inv)
  ∧ empty_slot (inv_item_in_off_hand inv).

(** ** Example data *)

Definition air_item : ItemStack := mkItemStack AIR 0 None None.

Definition iron_helmet : ItemStack :=
  mkItemStack (lit "minecraft:iron_helmet") 1
    (Some (mkItemMeta None (Some []) None false 3)) None.

Definition diamond_sword : ItemStack :=
  mkItemStack (lit "minecraft:diamond_sword") 1
    (Some (mkItemMeta (Some (lit "Excalibur"))
             (Some [(lit "sharpness", 5%Z); (lit "unbreaking", 3%Z)])
             (Some [lit "first line"; [233; 128512; QUOTE; BACKSLASH; 10]%N])
             true 12))
    (Some 0%Z).

Definition dirt : ItemStack := mkItemStack (lit "minecraft:dirt") 64 None None.

(** Only empty slots: nothing, or air. *)
Definition empty_handed : Player :=
  mkPlayer (lit "2001") (lit "Alex")
    (mkPlayerInventory [None; Some air_item; None] None (Some air_item) None None None)
    [Some air_item; None].

(** A helmet and nothing else. *)
Definition helmet_wearer : Player :=
  mkPlayer (lit "2002") (lit "Kai")
    (mkPlayerInventory [None; Some air_item] (Some iron_helmet) None None None None)
    [].

Definition loaded_player : Player :=
  mkPlayer (lit "2003") (lit "Noor")
    (mkPlayerInventory [Some diamond_sword; None; Some air_item; Some dirt]
       (Some iron_helmet) None None None (Some dirt))
    [None; Some dirt; Some diamond_sword].

Definition bare_player (xuid name : string) : Player :=
  mkPlayer (lit xuid) (lit name) (mkPlayerInventory [] None None None None None) [].

(** A directory with the three names of the spec's example. *)
Definition example_directory : DB :=
  save_user
    (save_user (save_user empty_db (bare_player "1001" "Steve") 10)
               (bare_player "1002" "steve_alt") 20)
    (bare_player "1003" "Bob") 30.

(** Where a number ends: at the end of the text or before a character
    that continues neither the digits, nor a fraction, nor an exponent. *)
Definition number_stop (rest : str) : Prop :=
  match rest with
  | [] => True
  | c :: _ => is_digit c = false ∧ c ≠ 46%N ∧ c ≠ 101%N ∧ c ≠ 69%N
  end.

(** A JSON column that the decoder does not parse: NULL or one of the
    three sentinel texts. *)
Definition never_parsed (col : option str) : Prop :=
  col = None ∨ col = Some (lit "null") ∨ col = Some (lit "0") ∨ col = Some (lit "").

(** A JSON column whose text is not valid encoded data. *)
Definition corrupt (col : option str) : Prop :=
  ∃ s, col = Some s ∧ json_loads s = None.

(** A numeric column whose value [int] refuses: neither NULL nor an
    integer, and nothing that converts to one. *)
Definition refused (x : option pynum) : Prop :=
  match x with
  | Some (PForeign None _) => True
  | _ => False
  end.

Global Instance refused_dec x : Decision (refused x).
Proof. destruct x as [[z|[z|] b]|]; simpl; apply _. Defined.

(** The rows that hold such a value in one of the four columns that the
    decoder reads with [int]. *)
Definition unreadable_row (row : InvRow) : Prop :=
  refused (inv_slot row) ∨ refused (inv_amount row)
  ∨ refused (inv_damage row) ∨ refused (inv_data row).

Definition unreadable_ender_row (row : EcRow) : Prop :=
  refused (ec_slot row) ∨ refused (ec_amount row)
  ∨ refused (ec_damage row) ∨ refused (ec_data row).

Global Instance unreadable_row_dec row : Decision (unreadable_row row).
Proof. unfold unreadable_row. apply _. Defined.

Global Instance unreadable_ender_row_dec row : Decision (unreadable_ender_row row).
Proof. unfold unreadable_ender_row. apply _. Defined.


Definition with_ender_json_columns (enchants lore : option str) (row : EcRow) : EcRow :=
  mkEcRow (ec_xuid row) (ec_name row) (ec_slot row)
    (ec_type row) (ec_amount row) (ec_damage row) (ec_display_name row)
    enchants lore (ec_unbreakable row) (ec_data row).

(** A row with the texts [null] and [0] in its JSON columns. *)
Definition sentinel_row : InvRow :=
  mkInvRow (Some (lit "2003")) (Some (lit "Noor")) (Some (lit "slot"))
    (Some (PInt 0)) (Some (lit "minecraft:dirt")) (Some (PInt 1))
    (Some (PInt 0)) None (Some (lit "null")) (Some (lit "0"))
    (Some (PInt 0)) None.

(** A bow whose enchantment and lore texts are damaged. *)
Definition damaged_bow (slot : option pynum) : InvRow :=
  mkInvRow (Some (lit "2003")) (Some (lit "Noor")) (Some (lit "slot"))
    slot (Some (lit "minecraft:bow")) (Some (PInt 1)) None
    (Some []) (Some (lit "{sharpness: 5")) (Some (lit "[1, 2")) (Some (PInt 0)) None.


(** ** Further code of the two files *)

(** [DatabaseManager.__init__]: the file name under [DB_FOLDER],
    [db_name if db_name.endswith('.db') else db_name + '.db']. *)
Definition ends_with (suffix s : str) : bool :=
  is_prefix (reverse suffix) (reverse s).

Definition db_file_name (db_name : str) : str :=
  if ends_with (lit ".db") db_name then db_name else db_name ++ lit ".db".

(** [_map_slot_to_chest] of the plugin: the chest-form position of an
    inventory slot; [None] where the method returns [None]. *)
Definition map_slot_to_chest (slot_idx : Z) (which : str) : option Z :=
  if str_eqb which (lit "ender") then Some slot_idx
  else if (9 <=? slot_idx)%Z && (slot_idx <=? 35)%Z then Some (slot_idx - 9)%Z
  else if (0 <=? slot_idx)%Z && (slot_idx <=? 8)%Z then Some (27 + slot_idx)%Z
  else None.

(** The ender-chest record of a non-empty item, as [spec_record] for the
    inventory: unset display name, enchantments and lore read as empty. *)
Definition spec_ender_record (player : Player) (slot : Z) (item : ItemStack) : EnderDict :=
  mkEnderDict (Some (player_xuid player)) (Some (player_name player))
    slot (item_type item) (item_amount item)
    (spec_damage item) (spec_display_name item)
    (json_of_pyval (PDict (spec_enchants item)))
    (json_of_pyval (PList (spec_lore item)))
    (spec_unbreakable item) (item_data item).

Definition spec_ender_records (player : Player) : list EnderDict :=
  (λ ia : Z * ItemStack, spec_ender_record player ia.1 ia.2)
    <$> spec_numbered (player_ender_chest player).

(** A user as a look-up shows it after the leave time of [xuid] was set. *)
Definition with_leave_time (xuid : str) (leave_time : Z) (u : User) : User :=
  if decide (user_xuid u = xuid)
  then mkUser (user_xuid u) (user_name u) (user_last_join u) leave_time
  else u.

(** A printable ASCII character. *)
Definition printable (c : N) : Prop := (32 ≤ c ≤ 126)%N.

Global Instance printable_dec c : Decision (printable c).
Proof. unfold printable. apply _. Defined.

(** A store whose ender-chest table has a damaged row for one player,
    with the value [amount] in its amount column. *)
Definition damaged_chest (amount : option pynum) : DB :=
  mkDB ∅ (mkTable [] 0)
    (mkTable
       [(1%Z, enderchest_row loaded_player 1 dirt);
        (2%Z, mkEcRow (Some (lit "2003")) (Some (lit "Noor")) (Some (PInt 5))
                (Some (lit "minecraft:bow")) amount (Some (PInt 0))
                (Some []) (Some (lit "{power: 2")) (Some (lit "[")) (Some (PInt 0)) None)]
       2).

(** The state in which AUTOINCREMENT keeps a table: the row ids are
    pairwise distinct and none is above the id counter
    ([sqlite_sequence]). *)
Definition ids_recorded {R} (t : Table R) : Prop :=
  NoDup (fst <$> tbl_rows t)
  ∧ Forall (λ ir : Z * R, (ir.1 ≤ tbl_seq t)%Z) (tbl_rows t).

Global Instance ids_recorded_dec {R} (t : Table R) : Decision (ids_recorded t).
Proof. unfold ids_recorded. apply _. Defined.

(** The five container kinds of the equipment slots. *)
Definition EQUIPMENT_KINDS : list str :=
  [lit "helmet"; lit "chestplate"; lit "leggings"; lit "boots"; lit "offhand"].

(** * Properties *)

Global Instance joined_after_total : Total joined_after.
Proof. intros a b. unfold joined_after. lia. Qed.

Global Instance joined_after_trans : Transitive joined_after.
Proof. intros a b c. unfold joined_after. lia. Qed.

(** ** Matching with [LIKE] *)

Lemma like_percent p s :
  like (PERCENT :: p) s
  = like p s || match s with [] => false | _ :: s' => like (PERCENT :: p) s' end.
Proof. destruct s; reflexivity. Qed.

Lemma like_percent_only s : like [PERCENT] s = true.
Proof.
  induction s as [|c s IH]; [reflexivity|].
  rewrite like_percent, IH. apply orb_true_r.
Qed.

Lemma sql_lower_char_idemp c : sql_lower_char (sql_lower_char c) = sql_lower_char c.
Proof.
  unfold sql_lower_char.
  destruct ((65 <=? c)%N && (c <=? 90)%N) eqn:E; [|rewrite E; reflexivity].
  apply andb_true_iff in E as [E1 E2].
  apply N.leb_le in E1. apply N.leb_le in E2.
  destruct ((65 <=? c + 32)%N && (c + 32 <=? 90)%N) eqn:E'; [|reflexivity].
  apply andb_true_iff in E' as [_ E']. apply N.leb_le in E'. lia.
Qed.

Lemma sql_lower_char_plain c :
  ¬ wildcard c → sql_lower_char c ≠ PERCENT ∧ sql_lower_char c ≠ UNDERSCORE.
Proof.
  unfold wildcard, sql_lower_char, PERCENT, UNDERSCORE. intros Hc.
  destruct ((65 <=? c)%N && (c <=? 90)%N) eqn:E.
  - apply andb_true_iff in E as [E1 E2].
    apply N.leb_le in E1. apply N.leb_le in E2. lia.
  - split; intros ->; apply Hc; auto.
Qed.

Lemma like_plain_prefix p s :
  Forall (λ c, ¬ wildcard c) p →
  like (sql_lower (p ++ [PERCENT])) (sql_lower s)
  = is_prefix (sql_lower p) (sql_lower s).
Proof.
  intros Hp. revert s. induction Hp as [|c p Hc Hp IH]; intros s.
  - apply like_percent_only.
  - destruct (sql_lower_char_plain c Hc) as [H1 H2].
    destruct s as [|d s]; simpl.
    + apply N.eqb_neq in H1. rewrite H1. reflexivity.
    + apply N.eqb_neq in H1. apply N.eqb_neq in H2. rewrite H1, H2. simpl.
      rewrite !sql_lower_char_idemp. f_equal. apply IH.
Qed.

Lemma like_plain_infix pattern name :
  Forall (λ c, ¬ wildcard c) pattern →
  like (sql_lower (PERCENT :: pattern ++ [PERCENT])) (sql_lower name)
  = spec_name_matches pattern name.
Proof.
  intros Hp. unfold spec_name_matches.
  change (sql_lower (PERCENT :: pattern ++ [PERCENT]))
    with (PERCENT :: sql_lower (pattern ++ [PERCENT])).
  induction name as [|c name IH].
  - rewrite like_percent, (like_plain_prefix pattern [] Hp).
    reflexivity.
  - rewrite like_percent, (like_plain_prefix pattern (c :: name) Hp).
    change (sql_lower (c :: name)) with (sql_lower_char c :: sql_lower name).
    change (is_infix (sql_lower pattern) (sql_lower_char c :: sql_lower name))
      with (is_prefix (sql_lower pattern) (sql_lower_char c :: sql_lower name)
            || is_infix (sql_lower pattern) (sql_lower name)).
    rewrite <- IH. reflexivity.
Qed.

Lemma until_nul_id (s : str) : NUL ∉ s → until_nul s = s.
Proof.
  induction s as [|c s IH]; [reflexivity|].
  rewrite not_elem_of_cons. intros [Hc Hs]. cbn [until_nul].
  replace (c =? NUL)%N with false by (symmetry; apply N.eqb_neq; congruence).
  rewrite (IH Hs). reflexivity.
Qed.

Lemma sql_lower_char_nul (c : N) : (sql_lower_char c =? NUL)%N = (c =? NUL)%N.
Proof.
  unfold sql_lower_char, NUL.
  destruct ((65 <=? c)%N && (c <=? 90)%N) eqn:E; [|reflexivity].
  apply andb_true_iff in E as [E _]. apply N.leb_le in E.
  transitivity false; [|symmetry]; apply N.eqb_neq; lia.
Qed.

Lemma until_nul_lower (s : str) : until_nul (sql_lower s) = sql_lower (until_nul s).
Proof.
  induction s as [|c s IH]; [reflexivity|].
  change (sql_lower (c :: s)) with (sql_lower_char c :: sql_lower s).
  cbn [until_nul]. rewrite sql_lower_char_nul.
  destruct (c =? NUL)%N; [reflexivity|]. rewrite IH. reflexivity.
Qed.

Lemma until_nul_pattern (pattern : str) :
  NUL ∉ pattern →
  until_nul (PERCENT :: pattern ++ [PERCENT]) = PERCENT :: pattern ++ [PERCENT].
Proof.
  intros Hp. apply until_nul_id.
  rewrite not_elem_of_cons, not_elem_of_app, not_elem_of_cons.
  repeat split; [discriminate|exact Hp|discriminate|apply not_elem_of_nil].
Qed.

(** For a pattern without wildcards and without U+0000, the query's
    rule is the substring rule on what [LIKE] reads of the name. *)
Lemma name_matches_plain pattern name :
  Forall (λ c, ¬ wildcard c) pattern → NUL ∉ pattern →
  name_matches pattern name = spec_name_matches pattern (until_nul name).
Proof.
  intros Hp Hnul. unfold name_matches.
  rewrite !until_nul_lower, (until_nul_pattern pattern Hnul).
  apply like_plain_infix, Hp.
Qed.

Lemma is_prefix_spec p s : is_prefix p s = true ↔ ∃ post, s = p ++ post.
Proof.
  revert s. induction p as [|a p IH]; intros s; simpl.
  - split; eauto.
  - destruct s as [|b s].
    + split; [discriminate|]. intros [post H]. discriminate.
    + rewrite andb_true_iff, N.eqb_eq, IH. split.
      * intros [-> [post ->]]. eauto.
      * intros [post H]. injection H as -> ->. eauto.
Qed.

Lemma is_infix_spec p s : is_infix p s = true ↔ ∃ pre post, s = pre ++ p ++ post.
Proof.
  induction s as [|b s IH]; simpl.
  - rewrite orb_false_r, is_prefix_spec. split.
    + intros [post H]. exists [], post. exact H.
    + intros [pre [post H]]. destruct pre; [eauto|discriminate].
  - rewrite orb_true_iff, is_prefix_spec, IH. split.
    + intros [[post H]|[pre [post H]]].
      * exists [], post. exact H.
      * exists (b :: pre), post. rewrite H. reflexivity.
    + intros [pre [post H]]. destruct pre as [|c pre].
      * left. eauto.
      * right. injection H as _ H. eauto.
Qed.

(** ** Identity index *)

Lemma head_strongly_sorted {A} (R : relation A) `{!Reflexive R} (l : list A) :
  StronglySorted R l →
  match head l with
  | Some x => x ∈ l ∧ Forall (R x) l
  | None => l = []
  end.
Proof.
  destruct l as [|x l]; simpl; [reflexivity|].
  intros H. apply StronglySorted_inv in H as [_ H].
  split; [left|]. constructor; [reflexivity|exact H].
Qed.

Global Instance joined_after_refl : Reflexive joined_after.
Proof. intros a. unfold joined_after. lia. Qed.

Lemma select_users_like_perm db pattern :
  select_users_like db pattern
  ≡ₚ filter (λ u, name_matches pattern (user_name u) = true) (all_users db).
Proof. apply merge_sort_Permutation. Qed.

Lemma select_users_like_sorted db pattern :
  StronglySorted joined_after (select_users_like db pattern).
Proof. apply (StronglySorted_merge_sort joined_after). Qed.

Lemma filter_name_matches_plain pattern (l : list User) :
  Forall (λ c, ¬ wildcard c) pattern → NUL ∉ pattern →
  filter (λ u, name_matches pattern (user_name u) = true) l
  = filter (λ u, spec_name_matches pattern (until_nul (user_name u)) = true) l.
Proof.
  intros Hp Hnul. apply list_filter_iff. intros u.
  rewrite (name_matches_plain _ _ Hp Hnul). reflexivity.
Qed.

(** C4 (as amended): for a name pattern that contains none of [%], [_]
    and U+0000 and that [LIKE] accepts (at most 50 000 bytes between its
    two [%] signs included), the query's matching rule is exactly "the
    stored name contains the pattern as a substring", where both are
    taken with the ASCII capitals folded to lower case and the stored name
    is read up to its first U+0000, if it has one;
    [search_users_by_name] returns exactly the matching users, most recent
    join first, and [get_user_by_name] returns a matching user whose join
    time is the largest among the matches, or nothing when no name
    matches. *)
Theorem name_lookup_plain_pattern (db : DB) (pattern : str) :
  Forall (λ c, ¬ wildcard c) pattern → NUL ∉ pattern → within_like_limit pattern →
  let matching :=
    filter (λ u, spec_name_matches pattern (until_nul (user_name u)) = true)
           (all_users db) in
  (∀ name, name_matches pattern name = spec_name_matches pattern (until_nul name))
  ∧ (∀ name, NUL ∉ name → until_nul name = name)
  ∧ (∀ name, spec_name_matches pattern name = true
             ↔ ∃ pre post, sql_lower name = pre ++ sql_lower pattern ++ post)
  ∧ search_users_by_name db pattern ≡ₚ matching
  ∧ StronglySorted joined_after (search_users_by_name db pattern)
  ∧ match get_user_by_name db pattern with
    | Some u => u ∈ matching ∧ Forall (joined_after u) matching
    | None => matching = []
    end.
Proof.
  intros Hp Hnul _ matching.
  assert (Hperm : search_users_by_name db pattern ≡ₚ matching).
  { unfold search_users_by_name, matching.
    rewrite <- (filter_name_matches_plain _ _ Hp Hnul).
    apply select_users_like_perm. }
  split; [intros name; apply name_matches_plain; assumption|].
  split; [intros name; apply until_nul_id|].
  split; [intros name; apply is_infix_spec|].
  split; [exact Hperm|].
  split; [apply select_users_like_sorted|].
  unfold get_user_by_name.
  pose proof (head_strongly_sorted joined_after _
                (select_users_like_sorted db pattern)) as Hhead.
  fold (search_users_by_name db pattern) in Hhead |- *.
  destruct (head (search_users_by_name db pattern)) as [u|].
  - destruct Hhead as [Hin Hall]. split.
    + rewrite <- Hperm. exact Hin.
    + rewrite <- Hperm. exact Hall.
  - rewrite Hhead in Hperm. symmetry in Hperm.
    apply Permutation_nil_r in Hperm. exact Hperm.
Qed.

Lemma name_lookup_plain_pattern_witness :
  Forall (λ c, ¬ wildcard c) (lit "eve") ∧ (NUL ∉ lit "eve")
  ∧ within_like_limit (lit "eve")
  ∧ search_users_by_name example_directory (lit "eve")
    ≡ₚ filter (λ u, spec_name_matches (lit "eve") (until_nul (user_name u)) = true)
              (all_users example_directory).
Proof.
  assert (H : Forall (λ c, ¬ wildcard c) (lit "eve")).
  { repeat constructor; unfold wildcard, PERCENT, UNDERSCORE; intros [?|?]; discriminate. }
  assert (Hnul : NUL ∉ lit "eve").
  { apply (bool_decide_unpack _). vm_compute. exact I. }
  assert (Hlen : within_like_limit (lit "eve")).
  { unfold within_like_limit. vm_compute. discriminate. }
  split; [exact H|]. split; [exact Hnul|]. split; [exact Hlen|].
  exact (proj1 (proj2 (proj2 (proj2
           (name_lookup_plain_pattern example_directory (lit "eve") H Hnul Hlen))))).
Defined.

(** C4 (as stated) fails in three ways.  [_] in the pattern is a
    wildcard of [LIKE]: the pattern [s_e] finds "Steve", whose lowercase
    form does not contain [s_e].  [LIKE] stops reading at U+0000: the
    pattern [bob], U+0000, [zzz] finds "Bob".  [LOWER] and [LIKE] fold
    ASCII letters only: the pattern "école" does not find "École",
    although the lowercase name is the lowercase pattern. *)
Lemma name_lookup_wildcard_counterexample :
  let steve := save_user empty_db (bare_player "1001" "Steve") 10 in
  let bob := save_user empty_db (bare_player "1003" "Bob") 30 in
  let ecole := [201; 99; 111; 108; 101]%N in
  let school := save_user empty_db (mkPlayer (lit "1004") ecole
                  (mkPlayerInventory [] None None None None None) []) 40 in
  (lowercase_contains (lit "s_e") (lit "Steve") = false
   ∧ search_users_by_name steve (lit "s_e") = [mkUser (lit "1001") (lit "Steve") 10 0]
   ∧ get_user_by_name steve (lit "s_e") = Some (mkUser (lit "1001") (lit "Steve") 10 0))
  ∧ (lowercase_contains (lit "bob" ++ [NUL] ++ lit "zzz") (lit "Bob") = false
     ∧ search_users_by_name bob (lit "bob" ++ [NUL] ++ lit "zzz")
       = [mkUser (lit "1003") (lit "Bob") 30 0]
     ∧ get_user_by_name bob (lit "bob" ++ [NUL] ++ lit "zzz")
       = Some (mkUser (lit "1003") (lit "Bob") 30 0))
  ∧ (lowercase_contains [233; 99; 111; 108; 101]%N ecole = true
     ∧ search_users_by_name school [233; 99; 111; 108; 101]%N = []
     ∧ get_user_by_name school [233; 99; 111; 108; 101]%N = None).
Proof. vm_compute. repeat split. Qed.

(** The spec's example: "eve" finds both Steve and steve_alt, the most
    recently joined first; "zzz" finds nobody. *)
Example name_lookup_example :
  search_users_by_name example_directory (lit "eve")
  = [mkUser (lit "1002") (lit "steve_alt") 20 0; mkUser (lit "1001") (lit "Steve") 10 0]
  ∧ get_user_by_name example_directory (lit "eve")
    = Some (mkUser (lit "1002") (lit "steve_alt") 20 0)
  ∧ search_users_by_name example_directory (lit "zzz") = []
  ∧ get_user_by_name example_directory (lit "zzz") = None.
Proof. vm_compute. repeat split. Qed.

(** C5: [save_user] inserts or replaces the row keyed by the player's
    identifier with the given name and join time; the replaced row's leave
    time is reset to the default 0, also when one had been recorded by
    [update_user_leave_time] since the previous join; all other rows and
    both snapshot tables are left as they were. *)
Theorem save_user_replaces_row (db : DB) (player : Player)
    (earlier leave_time join_time : Z) :
  let x := player_xuid player in
  let fresh := mkUserRow (player_name player) join_time 0 in
  let left := update_user_leave_time (save_user db player earlier) x leave_time in
  users (save_user db player join_time) !! x = Some fresh
  ∧ delete x (users (save_user db player join_time)) = delete x (users db)
  ∧ inventories (save_user db player join_time) = inventories db
  ∧ ender_chests (save_user db player join_time) = ender_chests db
  ∧ users left !! x = Some (mkUserRow (player_name player) earlier leave_time)
  ∧ users (save_user left player join_time) !! x = Some fresh.
Proof.
  intros x fresh left. simpl.
  split; [apply lookup_insert_eq|].
  split; [apply delete_insert_eq|].
  split; [reflexivity|].
  split; [reflexivity|].
  split; [|apply lookup_insert_eq].
  rewrite lookup_alter_eq, lookup_insert_eq. reflexivity.
Qed.

(** Join, leave, join again: the look-up shows leave time 0. *)
Example save_user_rejoin_example :
  let steve := bare_player "1001" "Steve" in
  get_user_by_name
    (update_user_leave_time (save_user empty_db steve 10) (lit "1001") 15)
    (lit "steve")
  = Some (mkUser (lit "1001") (lit "Steve") 10 15)
  ∧ get_user_by_name
      (save_user (update_user_leave_time (save_user empty_db steve 10) (lit "1001") 15)
         steve 20)
      (lit "steve")
    = Some (mkUser (lit "1001") (lit "Steve") 20 0).
Proof. vm_compute. split; reflexivity. Qed.

(** C9: [update_user_leave_time] changes the leave time of the row whose
    identifier matches and nothing else; for an unknown identifier the
    store is unchanged: no row is created and the call cannot fail. *)
Theorem update_user_leave_time_only_matching (db : DB) (xuid : str) (leave_time : Z) :
  let db' := update_user_leave_time db xuid leave_time in
  delete xuid (users db') = delete xuid (users db)
  ∧ dom (users db') = dom (users db)
  ∧ inventories db' = inventories db
  ∧ ender_chests db' = ender_chests db
  ∧ match users db !! xuid with
    | Some row =>
        users db' !! xuid
        = Some (mkUserRow (row_name row) (row_last_join row) leave_time)
    | None => db' = db
    end.
Proof.
  simpl.
  split.
  { apply map_eq. intros y. destruct (decide (y = xuid)) as [->|Hne].
    - rewrite !lookup_delete_eq. reflexivity.
    - rewrite !lookup_delete_ne by congruence.
      apply lookup_alter_ne. congruence. }
  split; [apply dom_alter_L|].
  split; [reflexivity|].
  split; [reflexivity|].
  destruct (users db !! xuid) as [row|] eqn:E.
  - rewrite lookup_alter_eq, E. reflexivity.
  - unfold update_user_leave_time.
    rewrite alter_id' by exact E.
    destruct db; reflexivity.
Qed.

Example update_user_leave_time_example :
  update_user_leave_time example_directory (lit "4242") 77 = example_directory
  ∧ users (update_user_leave_time example_directory (lit "1003") 77) !! lit "1003"
    = Some (mkUserRow (lit "Bob") 30 77).
Proof. vm_compute. split; reflexivity. Qed.

(** ** Tables: delete, insert, select *)

Section tables.
Context {R : Type} (xuid_of : R → option str).

Lemma insert_many_rows (t : Table R) (values : list R) :
  ∃ new, tbl_rows (insert_many t values) = tbl_rows t ++ new
         ∧ snd <$> new = values.
Proof.
  revert t. induction values as [|v values IH]; intros t.
  - exists []. simpl. rewrite app_nil_r. split; reflexivity.
  - destruct (IH (insert_row t v)) as (new & Hrows & Hnew).
    exists ((next_id t, v) :: new). split.
    + change (insert_many t (v :: values))
        with (insert_many (insert_row t v) values).
      rewrite Hrows. simpl. rewrite <- app_assoc. reflexivity.
    + rewrite fmap_cons, Hnew. reflexivity.
Qed.

Lemma replace_rows_rows (x : str) (values : list R) (t : Table R) :
  ∃ new, tbl_rows (replace_rows xuid_of x values t)
         = filter (λ ir, xuid_of ir.2 ≠ Some x) (tbl_rows t) ++ new
         ∧ snd <$> new = values.
Proof.
  unfold replace_rows. destruct values as [|v values].
  - exists []. simpl. rewrite app_nil_r. split; reflexivity.
  - apply (insert_many_rows (delete_where xuid_of x t) (v :: values)).
Qed.

Lemma filter_same_xuid (x : str) (new : list (Z * R)) :
  Forall (λ v, xuid_of v = Some x) (snd <$> new) →
  filter (λ ir, xuid_of ir.2 = Some x) new = new
  ∧ filter (λ ir, xuid_of ir.2 ≠ Some x) new = [].
Proof.
  induction new as [|[i v] new IH]; simpl; intros H; [split; reflexivity|].
  apply Forall_cons in H as [Hv H]. destruct (IH H) as [IH1 IH2].
  split.
  - rewrite filter_cons_True by exact Hv. rewrite IH1. reflexivity.
  - rewrite filter_cons_False by (simpl; intros Hne; apply Hne, Hv).
    exact IH2.
Qed.

Lemma filter_deleted (x : str) (l : list (Z * R)) :
  filter (λ ir, xuid_of ir.2 = Some x) (filter (λ ir, xuid_of ir.2 ≠ Some x) l) = [].
Proof.
  induction l as [|ir l IH]; [reflexivity|].
  destruct (decide (xuid_of ir.2 = Some x)) as [E|E].
  - rewrite (filter_cons_False _ ir l) by (intros Hne; apply Hne, E). exact IH.
  - rewrite (filter_cons_True _ ir l) by exact E.
    rewrite filter_cons_False by exact E. exact IH.
Qed.

Lemma filter_kept (x : str) (l : list (Z * R)) :
  filter (λ ir, xuid_of ir.2 ≠ Some x) (filter (λ ir, xuid_of ir.2 ≠ Some x) l)
  = filter (λ ir, xuid_of ir.2 ≠ Some x) l.
Proof.
  induction l as [|ir l IH]; [reflexivity|].
  destruct (decide (xuid_of ir.2 = Some x)) as [E|E].
  - rewrite (filter_cons_False _ ir l) by (intros Hne; apply Hne, E). exact IH.
  - rewrite (filter_cons_True _ ir l) by exact E.
    rewrite filter_cons_True by exact E. rewrite IH. reflexivity.
Qed.

(** After the replacement, the rows of [x] are exactly [values]. *)
Lemma select_replace_rows (x : str) (values : list R) (t : Table R) :
  Forall (λ v, xuid_of v = Some x) values →
  select_where xuid_of x (replace_rows xuid_of x values t) = values.
Proof.
  intros Hvs. destruct (replace_rows_rows x values t) as (new & Hrows & Hnew).
  unfold select_where. rewrite Hrows, filter_app, filter_deleted.
  rewrite <- Hnew in Hvs. destruct (filter_same_xuid x new Hvs) as [-> _].
  exact Hnew.
Qed.

(** The rows of the other identifiers are the ones stored before. *)
Lemma others_replace_rows (x : str) (values : list R) (t : Table R) :
  Forall (λ v, xuid_of v = Some x) values →
  filter (λ ir, xuid_of ir.2 ≠ Some x) (tbl_rows (replace_rows xuid_of x values t))
  = filter (λ ir, xuid_of ir.2 ≠ Some x) (tbl_rows t).
Proof.
  intros Hvs. destruct (replace_rows_rows x values t) as (new & Hrows & Hnew).
  rewrite Hrows, filter_app, filter_kept.
  rewrite <- Hnew in Hvs. destruct (filter_same_xuid x new Hvs) as [_ ->].
  apply app_nil_r.
Qed.

Lemma select_other (x y : str) (l : list (Z * R)) :
  y ≠ x →
  filter (λ ir, xuid_of ir.2 = Some y) (filter (λ ir, xuid_of ir.2 ≠ Some x) l)
  = filter (λ ir, xuid_of ir.2 = Some y) l.
Proof.
  intros Hne. induction l as [|ir l IH]; [reflexivity|].
  destruct (decide (xuid_of ir.2 = Some x)) as [E|E].
  - rewrite (filter_cons_False _ ir l) by (intros Hn; apply Hn, E).
    rewrite (filter_cons_False _ ir l) by (rewrite E; congruence).
    exact IH.
  - rewrite (filter_cons_True _ ir l) by exact E.
    destruct (decide (xuid_of ir.2 = Some y)) as [E'|E'].
    + rewrite !filter_cons_True by exact E'. rewrite IH. reflexivity.
    + rewrite !filter_cons_False by exact E'. exact IH.
Qed.

Lemma select_replace_rows_other (x y : str) (values : list R) (t : Table R) :
  Forall (λ v, xuid_of v = Some x) values → y ≠ x →
  select_where xuid_of y (replace_rows xuid_of x values t)
  = select_where xuid_of y t.
Proof.
  intros Hvs Hne. unfold select_where. f_equal.
  rewrite <- (select_other x y (tbl_rows (replace_rows xuid_of x values t)) Hne).
  rewrite (others_replace_rows x values t Hvs).
  apply select_other, Hne.
Qed.
End tables.

(** ** The encode path *)

Lemma occupied_spec (item : option ItemStack) :
  occupied item
  = match item with
    | Some it => if decide (non_empty it) then Some it else None
    | None => None
    end.
Proof.
  destruct item as [it|]; [|reflexivity]. unfold occupied, str_eqb, non_empty.
  destruct (decide (item_type it = AIR)) as [E|E].
  - rewrite bool_decide_eq_true_2 by exact E.
    destruct (decide (item_type it ≠ AIR)); [contradiction|reflexivity].
  - rewrite bool_decide_eq_false_2 by exact E.
    destruct (decide (item_type it ≠ AIR)); [reflexivity|contradiction].
Qed.

Lemma slot_values_from {R} (row : Z → ItemStack → R) (k : nat) (slots : Inventory) :
  slot_values row (Z.of_nat k) slots
  = (λ ia : Z * ItemStack, row ia.1 ia.2)
      <$> omap (λ ia : nat * option ItemStack,
                  match ia.2 with
                  | Some it =>
                      if decide (non_empty it) then Some (Z.of_nat ia.1, it) else None
                  | None => None
                  end)
               (imap (λ i x, (k + i, x)) slots).
Proof.
  revert k. induction slots as [|item slots IH]; intros k; [reflexivity|].
  cbn [slot_values imap omap list_omap].
  replace (Z.of_nat k + 1)%Z with (Z.of_nat (S k)) by lia.
  rewrite IH, occupied_spec.
  rewrite (imap_ext ((λ i x, (k + i, x)) ∘ S) (λ i x, (S k + i, x)) slots)
    by (intros i x _; simpl; f_equal; lia).
  cbn [snd fst]. rewrite Nat.add_0_r.
  destruct item as [it|]; [|reflexivity].
  destruct (decide (non_empty it)); reflexivity.
Qed.

Lemma slot_values_spec {R} (row : Z → ItemStack → R) (slots : Inventory) :
  slot_values row 0%Z slots
  = (λ ia : Z * ItemStack, row ia.1 ia.2) <$> spec_numbered slots.
Proof. apply (slot_values_from row 0 slots). Qed.

Lemma armor_values_spec (player : Player) :
  armor_values player
  = (λ a : str * ItemStack, inventory_row player a.1 0%Z a.2)
      <$> spec_equipment (player_inventory player).
Proof.
  unfold armor_values, spec_equipment, armor_items.
  generalize [(lit "helmet", inv_helmet (player_inventory player));
              (lit "chestplate", inv_chestplate (player_inventory player));
              (lit "leggings", inv_leggings (player_inventory player));
              (lit "boots", inv_boots (player_inventory player));
              (lit "offhand", inv_item_in_off_hand (player_inventory player))].
  intros l. induction l as [|[slot_type item] l IH]; [reflexivity|].
  cbn [omap list_omap snd fst]. rewrite IH, occupied_spec.
  destruct item as [it|]; [|reflexivity].
  destruct (decide (non_empty it)); reflexivity.
Qed.

Lemma inventory_values_spec (player : Player) :
  inventory_values player
  = ((λ ia : Z * ItemStack, inventory_row player (lit "slot") ia.1 ia.2)
       <$> spec_numbered (inv_slots (player_inventory player)))
    ++ ((λ a : str * ItemStack, inventory_row player a.1 0%Z a.2)
          <$> spec_equipment (player_inventory player)).
Proof.
  unfold inventory_values. rewrite slot_values_spec, armor_values_spec.
  reflexivity.
Qed.

Lemma enderchest_values_spec (player : Player) :
  enderchest_values player
  = (λ ia : Z * ItemStack, enderchest_row player ia.1 ia.2)
      <$> spec_numbered (player_ender_chest player).
Proof. apply slot_values_spec. Qed.

Lemma inventory_values_xuid (player : Player) :
  Forall (λ v, inv_xuid v = Some (player_xuid player)) (inventory_values player).
Proof.
  rewrite inventory_values_spec. apply Forall_app. split.
  - apply Forall_fmap, Forall_true. reflexivity.
  - apply Forall_fmap, Forall_true. reflexivity.
Qed.

Lemma enderchest_values_xuid (player : Player) :
  Forall (λ v, ec_xuid v = Some (player_xuid player)) (enderchest_values player).
Proof.
  rewrite enderchest_values_spec. apply Forall_fmap, Forall_true. reflexivity.
Qed.

Lemma spec_numbered_non_empty (slots : Inventory) :
  Forall (λ ia, non_empty ia.2) (spec_numbered slots).
Proof.
  unfold spec_numbered. generalize (imap pair slots). intros l.
  induction l as [|[i item] l IH]; [constructor|].
  cbn [omap list_omap snd fst]. destruct item as [it|]; [|exact IH].
  destruct (decide (non_empty it)); [constructor; assumption|exact IH].
Qed.

Lemma spec_equipment_non_empty (inv : PlayerInventory) :
  Forall (λ a, non_empty a.2) (spec_equipment inv).
Proof.
  unfold spec_equipment.
  generalize [(lit "helmet", inv_helmet inv); (lit "chestplate", inv_chestplate inv);
              (lit "leggings", inv_leggings inv); (lit "boots", inv_boots inv);
              (lit "offhand", inv_item_in_off_hand inv)].
  intros l. induction l as [|[st item] l IH]; [constructor|].
  cbn [omap list_omap snd fst]. destruct item as [it|]; [|exact IH].
  destruct (decide (non_empty it)); [constructor; assumption|exact IH].
Qed.

Lemma select_saved_inventory (db : DB) (player : Player) :
  select_where inv_xuid (player_xuid player) (inventories (save_inventory db player))
  = inventory_values player.
Proof. apply select_replace_rows, inventory_values_xuid. Qed.

Lemma select_saved_enderchest (db : DB) (player : Player) :
  select_where ec_xuid (player_xuid player) (ender_chests (save_enderchest db player))
  = enderchest_values player.
Proof. apply select_replace_rows, enderchest_values_xuid. Qed.

Lemma spec_numbered_empty (slots : Inventory) :
  Forall empty_slot slots → spec_numbered slots = [].
Proof.
  unfold spec_numbered.
  change (imap pair slots) with (imap (λ i x, (id i, x)) slots).
  generalize (@id nat). intros g.
  revert g. induction slots as [|item slots IH]; intros g H; [reflexivity|].
  apply Forall_cons in H as [Hitem H].
  cbn [imap omap list_omap snd fst].
  change ((λ i x, (g i, x)) ∘ S) with (λ i (x : option ItemStack), (g (S i), x)).
  rewrite (IH (λ i, g (S i)) H).
  destruct item as [it|]; [|reflexivity].
  simpl in Hitem. destruct (decide (non_empty it)) as [Hne|]; [|reflexivity].
  contradiction.
Qed.

Lemma spec_equipment_empty (inv : PlayerInventory) :
  empty_slot (inv_helmet inv) → empty_slot (inv_chestplate inv) →
  empty_slot (inv_leggings inv) → empty_slot (inv_boots inv) →
  empty_slot (inv_item_in_off_hand inv) →
  spec_equipment inv = [].
Proof.
  intros H1 H2 H3 H4 H5. unfold spec_equipment. cbn [omap list_omap snd fst].
  destruct (inv_helmet inv) as [a|], (inv_chestplate inv) as [b|],
    (inv_leggings inv) as [c|], (inv_boots inv) as [d|],
    (inv_item_in_off_hand inv) as [e|]; simpl in *;
    repeat match goal with
           | |- context [decide (non_empty ?it)] =>
               destruct (decide (non_empty it)); [contradiction|]
           end; reflexivity.
Qed.

(** C2: whatever rows were stored for the player before, after
    [save_inventory] the rows stored under the player's identifier are
    exactly the rows encoded from the live state, one per non-empty item,
    and the rows of every other identifier are untouched; the same holds
    for [save_enderchest] and the ender-chest table. *)
Theorem save_supersedes_prior_rows (db : DB) (player : Player) :
  select_where inv_xuid (player_xuid player) (inventories (save_inventory db player))
  = inventory_values player
  ∧ length (select_where inv_xuid (player_xuid player)
              (inventories (save_inventory db player)))
    = length (carried_items player)
  ∧ filter (λ ir, inv_xuid ir.2 ≠ Some (player_xuid player))
           (tbl_rows (inventories (save_inventory db player)))
    = filter (λ ir, inv_xuid ir.2 ≠ Some (player_xuid player))
             (tbl_rows (inventories db))
  ∧ select_where ec_xuid (player_xuid player) (ender_chests (save_enderchest db player))
    = enderchest_values player
  ∧ length (select_where ec_xuid (player_xuid player)
              (ender_chests (save_enderchest db player)))
    = length (spec_numbered (player_ender_chest player))
  ∧ filter (λ ir, ec_xuid ir.2 ≠ Some (player_xuid player))
           (tbl_rows (ender_chests (save_enderchest db player)))
    = filter (λ ir, ec_xuid ir.2 ≠ Some (player_xuid player))
             (tbl_rows (ender_chests db)).
Proof.
  split; [apply select_saved_inventory|].
  split.
  { rewrite select_saved_inventory, inventory_values_spec.
    unfold carried_items. rewrite !length_app, !length_fmap. reflexivity. }
  split; [apply others_replace_rows, inventory_values_xuid|].
  split; [apply select_saved_enderchest|].
  split.
  { rewrite select_saved_enderchest, enderchest_values_spec.
    rewrite length_fmap. reflexivity. }
  apply others_replace_rows, enderchest_values_xuid.
Qed.

(** A store that already holds three rows for the player and one for
    somebody else: after the save the player has the two new rows. *)
Example save_supersedes_example :
  let before := save_inventory (save_inventory empty_db loaded_player)
                  (mkPlayer (lit "2002") (lit "Noor") (player_inventory loaded_player) []) in
  let after := save_inventory before
                 (mkPlayer (lit "2003") (lit "Noor")
                    (mkPlayerInventory [Some dirt] (Some iron_helmet) None None None None) []) in
  length (select_where inv_xuid (lit "2003") (inventories before)) = 4
  ∧ length (select_where inv_xuid (lit "2003") (inventories after)) = 2
  ∧ length (tbl_rows (inventories after)) = 6.
Proof. vm_compute. repeat split. Qed.

(** C6: saving the same live state twice in a row leaves [get_inventory]
    with the same decoded result as saving it once, for the player and for
    every other identifier. *)
Theorem save_inventory_idempotent (db : DB) (player : Player) (xuid : str) :
  get_inventory (save_inventory (save_inventory db player) player) xuid
  = get_inventory (save_inventory db player) xuid.
Proof.
  unfold get_inventory. f_equal.
  destruct (decide (xuid = player_xuid player)) as [->|Hne].
  - rewrite !select_saved_inventory. reflexivity.
  - unfold save_inventory at 1. cbn [inventories].
    apply select_replace_rows_other; [apply inventory_values_xuid|exact Hne].
Qed.

(** C7: no row written by a save has the air item kind, and a live
    inventory (or ender chest) with only empty or air slots leaves no row
    for the player, so that the next read decodes to the empty list. *)
Theorem empty_slots_never_stored (db : DB) (player : Player) :
  Forall (λ r, inv_type r ≠ Some AIR)
         (select_where inv_xuid (player_xuid player)
            (inventories (save_inventory db player)))
  ∧ Forall (λ r, ec_type r ≠ Some AIR)
           (select_where ec_xuid (player_xuid player)
              (ender_chests (save_enderchest db player)))
  ∧ (only_empty_slots (player_inventory player) →
     select_where inv_xuid (player_xuid player)
       (inventories (save_inventory db player)) = []
     ∧ get_inventory (save_inventory db player) (player_xuid player) = [])
  ∧ (Forall empty_slot (player_ender_chest player) →
     select_where ec_xuid (player_xuid player)
       (ender_chests (save_enderchest db player)) = []
     ∧ get_enderchest (save_enderchest db player) (player_xuid player) = []).
Proof.
  split.
  { rewrite select_saved_inventory, inventory_values_spec.
    apply Forall_app. split; apply Forall_fmap.
    - eapply Forall_impl; [apply spec_numbered_non_empty|].
      intros [i it] H. simpl in *. congruence.
    - eapply Forall_impl; [apply spec_equipment_non_empty|].
      intros [st it] H. simpl in *. congruence. }
  split.
  { rewrite select_saved_enderchest, enderchest_values_spec.
    apply Forall_fmap.
    eapply Forall_impl; [apply spec_numbered_non_empty|].
    intros [i it] H. simpl in *. congruence. }
  split.
  - intros (Hs & H1 & H2 & H3 & H4 & H5). unfold get_inventory.
    rewrite select_saved_inventory, inventory_values_spec.
    rewrite (spec_numbered_empty _ Hs), (spec_equipment_empty _ H1 H2 H3 H4 H5).
    split; reflexivity.
  - intros Hs. unfold get_enderchest.
    rewrite select_saved_enderchest, enderchest_values_spec.
    rewrite (spec_numbered_empty _ Hs). split; reflexivity.
Qed.

Lemma empty_slots_never_stored_witness :
  only_empty_slots (player_inventory empty_handed)
  ∧ Forall empty_slot (player_ender_chest empty_handed)
  ∧ get_inventory (save_inventory (save_inventory empty_db loaded_player) empty_handed)
      (player_xuid empty_handed) = []
  ∧ get_enderchest (save_enderchest empty_db empty_handed)
      (player_xuid empty_handed) = [].
Proof.
  assert (H1 : only_empty_slots (player_inventory empty_handed)).
  { repeat split; try reflexivity. repeat constructor. }
  assert (H2 : Forall empty_slot (player_ender_chest empty_handed)).
  { repeat constructor. }
  split; [exact H1|]. split; [exact H2|].
  split.
  - exact (proj2 (proj1 (proj2 (proj2
             (empty_slots_never_stored
                (save_inventory empty_db loaded_player) empty_handed))) H1)).
  - exact (proj2 (proj2 (proj2 (proj2
             (empty_slots_never_stored empty_db empty_handed))) H2)).
Defined.


(** Numbered slots first, then helmet and offhand. *)
Example equipment_rows_example :
  (λ r, (inv_slot_type r, inv_slot r)) <$> inventory_values loaded_player
  = [(Some (lit "slot"), Some (PInt 0)); (Some (lit "slot"), Some (PInt 3));
     (Some (lit "helmet"), Some (PInt 0)); (Some (lit "offhand"), Some (PInt 0))].
Proof. vm_compute. reflexivity. Qed.


(** ** The decode path *)

Lemma decode_column_never_parsed (loads : str → option json) (dflt : json)
    (col : option str) :
  never_parsed col → decode_column loads dflt col = dflt.
Proof. intros [-> | [-> | [-> | ->]]]; reflexivity. Qed.

Lemma decode_column_corrupt (dflt : json) (col : option str) :
  corrupt col → decode_column json_loads dflt col = dflt.
Proof.
  intros (s & -> & Hs). unfold decode_column. rewrite Hs.
  destruct (truthy (Some s) && negb (bool_decide (s ∈ SENTINELS))); reflexivity.
Qed.

Lemma int_or_refused (dflt : Z) (x : option pynum) :
  int_or dflt x = None ↔ refused x.
Proof.
  destruct x as [[z|[z|] b]|]; simpl; split; intros H;
    first [discriminate H | contradiction H | exact I | reflexivity].
Qed.

Lemma int_or_none_refused (x : option pynum) :
  int_or_none x = None ↔ refused x.
Proof.
  destruct x as [[z|[z|] b]|]; simpl; split; intros H;
    first [discriminate H | contradiction H | exact I | reflexivity].
Qed.

(** A row is skipped exactly when [int] refuses one of its columns. *)
Lemma decode_inventory_row_skipped (row : InvRow) :
  decode_inventory_row row = None ↔ unreadable_row row.
Proof.
  unfold decode_inventory_row, unreadable_row.
  rewrite <- (int_or_refused 0 (inv_slot row)), <- (int_or_refused 1 (inv_amount row)),
    <- (int_or_refused 0 (inv_damage row)), <- (int_or_none_refused (inv_data row)).
  destruct (int_or 0 (inv_slot row)), (int_or 1 (inv_amount row)),
    (int_or 0 (inv_damage row)), (int_or_none (inv_data row)); simpl;
    (split; [intros H; try discriminate H; auto 6
            |intros [H|[H|[H|H]]]; try discriminate H; reflexivity]).
Qed.

Lemma decode_enderchest_row_skipped (row : EcRow) :
  decode_enderchest_row row = None ↔ unreadable_ender_row row.
Proof.
  unfold decode_enderchest_row, unreadable_ender_row.
  rewrite <- (int_or_refused 0 (ec_slot row)), <- (int_or_refused 1 (ec_amount row)),
    <- (int_or_refused 0 (ec_damage row)), <- (int_or_none_refused (ec_data row)).
  destruct (int_or 0 (ec_slot row)), (int_or 1 (ec_amount row)),
    (int_or 0 (ec_damage row)), (int_or_none (ec_data row)); simpl;
    (split; [intros H; try discriminate H; auto 6
            |intros [H|[H|[H|H]]]; try discriminate H; reflexivity]).
Qed.

(** The fields of the dict of a row that is not skipped. *)
Lemma decode_inventory_row_fields (row : InvRow) (d : InventoryDict) :
  decode_inventory_row row = Some d →
  d_enchants d = decode_column json_loads (JObj []) (inv_enchants row)
  ∧ d_lore d = decode_column json_loads (JArr []) (inv_lore row)
  ∧ int_or 0 (inv_slot row) = Some (d_slot d)
  ∧ int_or 1 (inv_amount row) = Some (d_amount d)
  ∧ int_or 0 (inv_damage row) = Some (d_damage d)
  ∧ d_unbreakable d = default false (py_bool <$> inv_unbreakable row)
  ∧ int_or_none (inv_data row) = Some (d_data d).
Proof.
  unfold decode_inventory_row.
  destruct (int_or 0 (inv_slot row)), (int_or 1 (inv_amount row)),
    (int_or 0 (inv_damage row)), (int_or_none (inv_data row)); simpl;
    try discriminate.
  intros [= <-]. repeat split.
Qed.

Lemma decode_enderchest_row_fields (row : EcRow) (d : EnderDict) :
  decode_enderchest_row row = Some d →
  ed_enchants d = decode_column json_loads (JObj []) (ec_enchants row)
  ∧ ed_lore d = decode_column json_loads (JArr []) (ec_lore row)
  ∧ int_or 0 (ec_slot row) = Some (ed_slot d)
  ∧ int_or 1 (ec_amount row) = Some (ed_amount d)
  ∧ int_or 0 (ec_damage row) = Some (ed_damage d)
  ∧ ed_unbreakable d = default false (py_bool <$> ec_unbreakable row)
  ∧ int_or_none (ec_data row) = Some (ed_data d).
Proof.
  unfold decode_enderchest_row.
  destruct (int_or 0 (ec_slot row)), (int_or 1 (ec_amount row)),
    (int_or 0 (ec_damage row)), (int_or_none (ec_data row)); simpl;
    try discriminate.
  intros [= <-]. repeat split.
Qed.




Lemma omap_app_cons {A B} (f : A → option B) (before after : list A) (x : A) :
  omap f (before ++ x :: after)
  = omap f before ++ option_list (f x) ++ omap f after.
Proof.
  rewrite omap_app. f_equal. cbn [omap list_omap].
  destruct (f x); reflexivity.
Qed.




(** The defaults, one column at a time: a row with only its damage
    missing, and a row with a real in its amount column. *)
Example null_defaults_example :
  (λ d, (d_slot d, d_amount d, d_damage d, d_unbreakable d))
    <$> decode_inventory_row (damaged_bow (Some (PInt 7)))
  = Some (7%Z, 1%Z, 0%Z, false)
  ∧ (λ d, (d_slot d, d_amount d, d_damage d, d_unbreakable d))
      <$> decode_inventory_row
            (mkInvRow (Some (lit "2003")) None None None None
               (Some (PForeign (Some 3%Z) true)) (Some (PInt 2)) None None None
               None None)
    = Some (0%Z, 3%Z, 2%Z, false).
Proof. vm_compute. split; reflexivity. Qed.

(** C10: a JSON column that is NULL or holds exactly [null], [0] or the
    empty text decodes to the empty mapping (enchantments) or the empty
    sequence (lore) whatever the parser would make of it, in both
    [get_inventory] and [get_enderchest]: the record of such a row carries
    the empty value, and the row has a record unless [int] refuses one of
    its numeric columns, whatever its JSON columns hold.  In particular
    the text [0] does not surface as the number 0 nor [null] as [None],
    although [json.loads] reads them so. *)
Theorem sentinel_text_never_parsed (col : option str) :
  never_parsed col →
  (∀ loads dflt, decode_column loads dflt col = dflt)
  ∧ (∀ row d, inv_enchants row = col → decode_inventory_row row = Some d →
              d_enchants d = JObj [])
  ∧ (∀ row d, inv_lore row = col → decode_inventory_row row = Some d →
              d_lore d = JArr [])
  ∧ (∀ row d, ec_enchants row = col → decode_enderchest_row row = Some d →
              ed_enchants d = JObj [])
  ∧ (∀ row d, ec_lore row = col → decode_enderchest_row row = Some d →
              ed_lore d = JArr [])
  ∧ (∀ row, decode_inventory_row row = None ↔ unreadable_row row)
  ∧ (∀ row, decode_enderchest_row row = None ↔ unreadable_ender_row row)
  ∧ json_loads (lit "0") = Some (JInt 0)
  ∧ json_loads (lit "null") = Some JNull
  ∧ json_loads (lit "") = None.
Proof.
  intros Hcol.
  split; [intros; apply decode_column_never_parsed, Hcol|].
  split.
  { intros row d <- Hd. apply decode_inventory_row_fields in Hd as (-> & _).
    apply decode_column_never_parsed, Hcol. }
  split.
  { intros row d <- Hd. apply decode_inventory_row_fields in Hd as (_ & -> & _).
    apply decode_column_never_parsed, Hcol. }
  split.
  { intros row d <- Hd. apply decode_enderchest_row_fields in Hd as (-> & _).
    apply decode_column_never_parsed, Hcol. }
  split.
  { intros row d <- Hd. apply decode_enderchest_row_fields in Hd as (_ & -> & _).
    apply decode_column_never_parsed, Hcol. }
  split; [apply decode_inventory_row_skipped|].
  split; [apply decode_enderchest_row_skipped|].
  vm_compute. repeat split.
Qed.

Lemma sentinel_text_never_parsed_witness :
  never_parsed (Some (lit "0"))
  ∧ d_lore <$> decode_inventory_row sentinel_row = Some (JArr []).
Proof.
  assert (H : never_parsed (Some (lit "0"))) by (right; right; left; reflexivity).
  split; [exact H|].
  destruct (decode_inventory_row sentinel_row) as [d|] eqn:E;
    [|vm_compute in E; discriminate E].
  cbn [fmap option_fmap option_map]. f_equal.
  apply (proj1 (proj2 (proj2 (sentinel_text_never_parsed (Some (lit "0")) H)))
           sentinel_row d eq_refl E).
Defined.

(** ** [json.loads] after [json.dumps]: strings *)

Ltac divlia := zify; Z.to_euclidean_division_equations; lia.

Lemma hex_value_digit (d : N) : (d < 16)%N → hex_value (hex_digit d) = Some d.
Proof.
  intros H.
  assert (Hd : (d = 0 ∨ d = 1 ∨ d = 2 ∨ d = 3 ∨ d = 4 ∨ d = 5 ∨ d = 6 ∨ d = 7
                ∨ d = 8 ∨ d = 9 ∨ d = 10 ∨ d = 11 ∨ d = 12 ∨ d = 13 ∨ d = 14
                ∨ d = 15)%N) by lia.
  repeat (destruct Hd as [-> | Hd]; [reflexivity|]). subst d. reflexivity.
Qed.

Lemma decode_hex4 (n : N) (r : str) :
  (n < 65536)%N → decode_uXXXX (hex4 n ++ r) = Some (n, r).
Proof.
  intros Hn. unfold hex4, decode_uXXXX. cbn [app].
  rewrite !hex_value_digit by (apply N.mod_lt; discriminate).
  do 2 f_equal.
  replace (n / 4096)%N with (n / 16 / 16 / 16)%N
    by (rewrite !N.Div0.div_div; reflexivity).
  replace (n / 256)%N with (n / 16 / 16)%N
    by (rewrite !N.Div0.div_div; reflexivity).
  divlia.
Qed.

Lemma lor_disjoint (a b : N) : N.land a b = 0%N → N.lor a b = (a + b)%N.
Proof.
  intros H. rewrite (N.add_nocarry_lxor a b H). symmetry. apply N.lxor_lor, H.
Qed.

Lemma land_low10 (a k : N) :
  N.land a 1023 = 0%N → N.land a (N.land k 1023) = 0%N.
Proof.
  intros H. rewrite (N.land_comm k), N.land_assoc, H. apply N.land_0_l.
Qed.

Lemma land_1023 (k : N) : N.land k 1023 = (k `mod` 1024)%N.
Proof. change 1023%N with (N.ones 10). apply N.land_ones. Qed.

Lemma high_surrogate_of (n : N) :
  (n < 1048576)%N →
  N.lor 55296 (N.land (N.shiftr n 10) 1023) = (55296 + n / 1024)%N.
Proof.
  intros Hn. rewrite lor_disjoint by (apply land_low10; reflexivity).
  rewrite land_1023, N.shiftr_div_pow2. change (2 ^ 10)%N with 1024%N.
  f_equal. apply N.mod_small. divlia.
Qed.

Lemma low_surrogate_of (n : N) :
  N.lor 56320 (N.land n 1023) = (56320 + n `mod` 1024)%N.
Proof.
  rewrite lor_disjoint by (apply land_low10; reflexivity).
  rewrite land_1023. reflexivity.
Qed.

Lemma join_surrogates_of (n : N) :
  (n < 1048576)%N →
  join_surrogates (55296 + n / 1024) (56320 + n `mod` 1024) = (65536 + n)%N.
Proof.
  intros Hn. unfold join_surrogates. f_equal.
  replace (55296 + n / 1024 - 55296)%N with (n / 1024)%N by divlia.
  replace (56320 + n `mod` 1024 - 56320)%N with (n `mod` 1024)%N by divlia.
  rewrite <- (land_1023 n).
  rewrite lor_disjoint.
  - rewrite land_1023, N.shiftl_mul_pow2. change (2 ^ 10)%N with 1024%N. divlia.
  - apply land_low10. rewrite land_1023, N.shiftl_mul_pow2.
    change (2 ^ 10)%N with 1024%N. apply N.Div0.mod_mul.
Qed.

Lemma scanstring_plain (fuel : nat) (c : N) (r : str) :
  c ≠ QUOTE → c ≠ BACKSLASH → (32 ≤ c)%N →
  scanstring (S fuel) (c :: r)
  = match scanstring fuel r with
    | Some (t, rest) => Some (c :: t, rest)
    | None => None
    end.
Proof.
  intros H1 H2 H3. cbn [scanstring].
  apply N.eqb_neq in H1. apply N.eqb_neq in H2. rewrite H1, H2.
  replace (c <? 32)%N with false by (symmetry; apply N.ltb_ge, H3).
  reflexivity.
Qed.

Lemma scanstring_unicode (fuel : nat) (r : str) :
  scanstring (S fuel) (BACKSLASH :: 117%N :: r)
  = match decode_uXXXX r with
    | Some (uni, r2) =>
        match scan_surrogate uni r2 with
        | Some (ch, r3) =>
            match scanstring fuel r3 with
            | Some (t, rest) => Some (ch :: t, rest)
            | None => None
            end
        | None => None
        end
    | None => None
    end.
Proof. reflexivity. Qed.

(** One escaped character is read back as the character itself. *)
Lemma scanstring_escape_char (fuel : nat) (c : N) (tail : str) :
  scalar_value c →
  scanstring (S fuel) (escape_char c ++ tail)
  = match scanstring fuel tail with
    | Some (t, rest) => Some (c :: t, rest)
    | None => None
    end.
Proof.
  intros Hc. unfold escape_char.
  destruct (c =? BACKSLASH)%N eqn:E1; [apply N.eqb_eq in E1; subst c; reflexivity|].
  destruct (c =? QUOTE)%N eqn:E2; [apply N.eqb_eq in E2; subst c; reflexivity|].
  destruct (c =? 8)%N eqn:E3; [apply N.eqb_eq in E3; subst c; reflexivity|].
  destruct (c =? 12)%N eqn:E4; [apply N.eqb_eq in E4; subst c; reflexivity|].
  destruct (c =? 10)%N eqn:E5; [apply N.eqb_eq in E5; subst c; reflexivity|].
  destruct (c =? 13)%N eqn:E6; [apply N.eqb_eq in E6; subst c; reflexivity|].
  destruct (c =? 9)%N eqn:E7; [apply N.eqb_eq in E7; subst c; reflexivity|].
  apply N.eqb_neq in E1. apply N.eqb_neq in E2.
  destruct ((32 <=? c)%N && (c <=? 126)%N) eqn:Ep.
  { apply andb_true_iff in Ep as [Ep _]. apply N.leb_le in Ep.
    apply (scanstring_plain fuel c tail E2 E1 Ep). }
  destruct (c <? 65536)%N eqn:E16.
  - apply N.ltb_lt in E16.
    change ((BACKSLASH :: 117%N :: hex4 c) ++ tail)
      with (BACKSLASH :: 117%N :: hex4 c ++ tail).
    rewrite scanstring_unicode, (decode_hex4 c tail E16).
    unfold scan_surrogate.
    replace (is_high_surrogate c) with false; [reflexivity|].
    symmetry. unfold is_high_surrogate. apply andb_false_iff.
    rewrite N.leb_gt, N.leb_gt. unfold scalar_value in Hc. lia.
  - apply N.ltb_ge in E16. unfold scalar_value in Hc.
    assert (Hn : (c - 65536 < 1048576)%N) by lia.
    cbv zeta. rewrite (high_surrogate_of _ Hn), low_surrogate_of.
    set (n := (c - 65536)%N) in *.
    assert (Hhi : (55296 + n / 1024 < 65536)%N) by divlia.
    assert (Hlo : (56320 + n `mod` 1024 < 65536)%N) by divlia.
    change (((BACKSLASH :: 117%N :: hex4 (55296 + n / 1024))
             ++ BACKSLASH :: 117%N :: hex4 (56320 + n `mod` 1024)) ++ tail)
      with (BACKSLASH :: 117%N :: hex4 (55296 + n / 1024)
            ++ (BACKSLASH :: 117%N :: hex4 (56320 + n `mod` 1024) ++ tail)).
    rewrite scanstring_unicode, (decode_hex4 _ _ Hhi).
    unfold scan_surrogate.
    replace (is_high_surrogate (55296 + n / 1024)) with true
      by (symmetry; unfold is_high_surrogate; apply andb_true_iff;
          rewrite !N.leb_le; split; divlia).
    change ((BACKSLASH =? BACKSLASH)%N && (117 =? 117)%N) with true. cbv iota.
    rewrite (decode_hex4 _ _ Hlo).
    replace (is_low_surrogate (56320 + n `mod` 1024)) with true
      by (symmetry; unfold is_low_surrogate; apply andb_true_iff;
          rewrite !N.leb_le; split; divlia).
    rewrite (join_surrogates_of n Hn).
    replace (65536 + n)%N with c by lia. reflexivity.
Qed.

Lemma escape_char_length (c : N) : 1 ≤ length (escape_char c).
Proof.
  unfold escape_char.
  repeat match goal with
         | |- context [if ?b then _ else _] => destruct b
         end; simpl; lia.
Qed.

(** [scanstring] reads the escaped body of a string back, given one
    unit of fuel per character of the text. *)
Lemma scanstring_escaped (s : str) (fuel : nat) (rest : str) :
  unicode_text s →
  length (concat (escape_char <$> s)) < fuel →
  scanstring fuel (concat (escape_char <$> s) ++ QUOTE :: rest) = Some (s, rest).
Proof.
  intros Hs. revert fuel. induction Hs as [|c s Hc Hs IH]; intros fuel Hfuel.
  - destruct fuel as [|fuel]; [simpl in Hfuel; lia|]. reflexivity.
  - destruct fuel as [|fuel]; [simpl in Hfuel; lia|].
    rewrite fmap_cons in Hfuel |- *. cbn [concat] in Hfuel |- *.
    rewrite length_app in Hfuel. pose proof (escape_char_length c).
    rewrite <- app_assoc, (scanstring_escape_char fuel c _ Hc).
    rewrite IH by lia. reflexivity.
Qed.

(** ** [json.loads] after [json.dumps]: integers *)

Lemma digits_of_uint_digits (u : Decimal.uint) :
  Forall (λ c, is_digit c = true) (digits_of_uint u).
Proof. induction u; simpl; constructor; try reflexivity; assumption. Qed.

Lemma uint_of_digits_of_uint (u : Decimal.uint) :
  uint_of_digits (digits_of_uint u) = u.
Proof. induction u; simpl; [reflexivity|rewrite IHu; reflexivity..]. Qed.

Lemma span_digits_app (ds rest : str) :
  Forall (λ c, is_digit c = true) ds → number_stop rest →
  span_digits (ds ++ rest) = (ds, rest).
Proof.
  intros Hds Hrest. induction Hds as [|c ds Hc Hds IH]; cbn [app span_digits].
  - destruct rest as [|c rest]; [reflexivity|].
    destruct Hrest as [Hc _]. cbn [span_digits]. rewrite Hc. reflexivity.
  - rewrite Hc, IH. reflexivity.
Qed.

Lemma nzhead_head (u : Decimal.uint) :
  match Decimal.nzhead u with
  | Decimal.D0 _ => False
  | _ => True
  end.
Proof. induction u; simpl; try exact I. exact IHu. Qed.

Lemma pos_to_uint_head (p : positive) :
  match Pos.to_uint p with
  | Decimal.Nil | Decimal.D0 _ => False
  | _ => True
  end.
Proof.
  pose proof (DecimalPos.Unsigned.to_of (Pos.to_uint p)) as H.
  rewrite DecimalPos.Unsigned.of_to in H. simpl in H.
  pose proof (DecimalPos.Unsigned.to_uint_nonzero p) as Hnz.
  pose proof (nzhead_head (Pos.to_uint p)) as Hh.
  unfold Decimal.unorm in H.
  destruct (Decimal.nzhead (Pos.to_uint p)) eqn:E;
    try (rewrite H; exact I); [congruence|contradiction].
Qed.

(** The decimal text of a positive number: a non-zero digit, then
    digits. *)
Lemma digits_of_pos (p : positive) :
  ∃ c ds, digits_of_uint (Pos.to_uint p) = c :: ds
          ∧ is_digit c = true ∧ c ≠ 48%N
          ∧ Forall (λ c, is_digit c = true) ds.
Proof.
  pose proof (pos_to_uint_head p) as Hh.
  pose proof (digits_of_uint_digits (Pos.to_uint p)) as Hd.
  destruct (Pos.to_uint p) as [|u|u|u|u|u|u|u|u|u|u]; try contradiction;
    simpl in *; apply Forall_cons in Hd as [Hc Hd];
    eexists _, _; (split; [reflexivity|]); (split; [exact Hc|]);
    (split; [discriminate|exact Hd]).
Qed.

Lemma frac_part_stop (rest : str) : number_stop rest → frac_part rest = (None, rest).
Proof.
  destruct rest as [|c [|d r]]; try reflexivity. simpl.
  intros (_ & Hdot & _). apply N.eqb_neq in Hdot. rewrite Hdot. reflexivity.
Qed.

Lemma exp_part_stop (rest : str) : number_stop rest → exp_part rest = (None, rest).
Proof.
  destruct rest as [|c r]; [reflexivity|]. simpl.
  intros (_ & _ & He1 & He2).
  apply N.eqb_neq in He1. apply N.eqb_neq in He2. rewrite He1, He2. reflexivity.
Qed.

Lemma int_part_digits (c : N) (ds rest : str) :
  is_digit c = true → c ≠ 48%N → Forall (λ c, is_digit c = true) ds →
  number_stop rest →
  int_part (c :: ds ++ rest) = Some (c :: ds, rest).
Proof.
  intros Hc H0 Hds Hrest. unfold int_part.
  apply N.eqb_neq in H0. rewrite H0, Hc, (span_digits_app ds rest Hds Hrest).
  reflexivity.
Qed.

Lemma is_digit_not_minus (c : N) : is_digit c = true → (c =? 45)%N = false.
Proof.
  unfold is_digit. intros H. apply andb_true_iff in H as [H _].
  apply N.leb_le in H. apply N.eqb_neq. lia.
Qed.

Lemma digits_of_uint_length (u : Decimal.uint) :
  length (digits_of_uint u) = Decimal.nb_digits u.
Proof. induction u; simpl; congruence. Qed.

Lemma little_double_length (d : Decimal.uint) :
  Decimal.nb_digits (Decimal.Little.double d) ≤ S (Decimal.nb_digits d)
  ∧ Decimal.nb_digits (Decimal.Little.succ_double d) ≤ S (Decimal.nb_digits d).
Proof.
  induction d as [|d [IH1 IH2]|d [IH1 IH2]|d [IH1 IH2]|d [IH1 IH2]|d [IH1 IH2]
                  |d [IH1 IH2]|d [IH1 IH2]|d [IH1 IH2]|d [IH1 IH2]|d [IH1 IH2]];
    simpl; lia.
Qed.

Lemma to_little_uint_length (p : positive) :
  Decimal.nb_digits (Pos.to_little_uint p) ≤ Pos.size_nat p.
Proof.
  induction p as [p IH|p IH|]; simpl.
  - pose proof (proj2 (little_double_length (Pos.to_little_uint p))). lia.
  - pose proof (proj1 (little_double_length (Pos.to_little_uint p))). lia.
  - lia.
Qed.

Lemma size_nat_bound (p : positive) (n : nat) :
  (Z.pos p < 2 ^ Z.of_nat n)%Z → Pos.size_nat p ≤ n.
Proof.
  revert n. induction p as [p IH|p IH|]; intros n Hp; simpl.
  - destruct n as [|n]; [simpl in Hp; lia|].
    rewrite Nat2Z.inj_succ, Z.pow_succ_r in Hp by lia.
    specialize (IH n). lia.
  - destruct n as [|n]; [simpl in Hp; lia|].
    rewrite Nat2Z.inj_succ, Z.pow_succ_r in Hp by lia.
    specialize (IH n). lia.
  - destruct n as [|n]; [simpl in Hp; lia|]. lia.
Qed.

(** A number below [2 ^ 64] prints in at most 64 digits, well within the
    limit of [int(text)]. *)
Lemma digits_of_pos_length (p : positive) :
  (Z.pos p < 2 ^ 64)%Z → length (digits_of_uint (Pos.to_uint p)) ≤ 64.
Proof.
  intros Hp. rewrite digits_of_uint_length. unfold Pos.to_uint.
  rewrite DecimalFacts.nb_digits_rev.
  etrans; [apply to_little_uint_length|].
  apply size_nat_bound. exact Hp.
Qed.

Lemma within_max_str_digits (ds : str) :
  length ds ≤ 64 → (MAX_STR_DIGITS <? Z.of_nat (length ds))%Z = false.
Proof. intros H. apply Z.ltb_ge. unfold MAX_STR_DIGITS. lia. Qed.

(** A printed 64-bit integer is matched in full and read back as
    itself. *)
Lemma match_number_str_of_int (z : Z) (rest : str) :
  int64 z → number_stop rest →
  match_number (str_of_int z ++ rest) = Some (JInt z, rest).
Proof.
  unfold int64. intros Hz Hrest. destruct z as [|p|p].
  - change (str_of_int 0 ++ rest) with (48%N :: rest).
    unfold match_number. cbn [int_part N.eqb Pos.eqb].
    rewrite (frac_part_stop rest Hrest), (exp_part_stop rest Hrest).
    reflexivity.
  - unfold str_of_int. cbn [Z.to_int].
    assert (Hlen : length (digits_of_uint (Pos.to_uint p)) ≤ 64)
      by (apply digits_of_pos_length; lia).
    destruct (digits_of_pos p) as (c & ds & E & Hc & H0 & Hds).
    assert (Hval : int_of_digits false (c :: ds) = Z.pos p).
    { rewrite <- E. unfold int_of_digits. rewrite uint_of_digits_of_uint.
      apply (DecimalZ.of_to (Z.pos p)). }
    rewrite E in Hlen |- *. change ((c :: ds) ++ rest) with (c :: ds ++ rest).
    unfold match_number. rewrite (is_digit_not_minus c Hc).
    rewrite (int_part_digits c ds rest Hc H0 Hds Hrest).
    rewrite (frac_part_stop rest Hrest), (exp_part_stop rest Hrest).
    rewrite (within_max_str_digits _ Hlen), Hval. reflexivity.
  - unfold str_of_int. cbn [Z.to_int].
    assert (Hlen : length (digits_of_uint (Pos.to_uint p)) ≤ 64)
      by (apply digits_of_pos_length; lia).
    destruct (digits_of_pos p) as (c & ds & E & Hc & H0 & Hds).
    assert (Hval : int_of_digits true (c :: ds) = Z.neg p).
    { rewrite <- E. unfold int_of_digits. rewrite uint_of_digits_of_uint.
      apply (DecimalZ.of_to (Z.neg p)). }
    rewrite E in Hlen |- *.
    change ((45%N :: c :: ds) ++ rest) with (45%N :: c :: ds ++ rest).
    unfold match_number. cbn [N.eqb Pos.eqb].
    rewrite (int_part_digits c ds rest Hc H0 Hds Hrest).
    rewrite (frac_part_stop rest Hrest), (exp_part_stop rest Hrest).
    rewrite (within_max_str_digits _ Hlen), Hval. reflexivity.
Qed.

Lemma str_of_int_head (z : Z) :
  ∃ c ds, str_of_int z = c :: ds ∧ (c = 45%N ∨ is_digit c = true).
Proof.
  destruct z as [|p|p].
  - exists 48%N, []. split; [reflexivity|right; reflexivity].
  - destruct (digits_of_pos p) as (c & ds & E & Hc & _).
    exists c, ds. split; [exact E|right; exact Hc].
  - destruct (digits_of_pos p) as (c & ds & E & _).
    exists 45%N, (c :: ds). split; [|left; reflexivity].
    unfold str_of_int. cbn [Z.to_int]. rewrite E. reflexivity.
Qed.

Lemma scan_once_str_of_int (depth : nat) (z : Z) (rest : str) :
  int64 z → number_stop rest →
  scan_once (S depth) (str_of_int z ++ rest) = Some (JInt z, rest).
Proof.
  intros Hz Hrest. pose proof (match_number_str_of_int z rest Hz Hrest) as Hnum.
  destruct (str_of_int_head z) as (c & ds & E & Hc). rewrite E in Hnum |- *.
  change ((c :: ds) ++ rest) with (c :: ds ++ rest) in Hnum |- *.
  assert (Hrange : (c = 45 ∨ 48 ≤ c ≤ 57)%N).
  { destruct Hc as [->|Hc]; [left; reflexivity|right].
    unfold is_digit in Hc. apply andb_true_iff in Hc as [H1 H2].
    apply N.leb_le in H1. apply N.leb_le in H2. lia. }
  cbn [scan_once].
  replace (c =? QUOTE)%N with false by (symmetry; apply N.eqb_neq; unfold QUOTE; lia).
  replace (c =? 123)%N with false by (symmetry; apply N.eqb_neq; lia).
  replace (c =? 91)%N with false by (symmetry; apply N.eqb_neq; lia).
  replace (c =? 110)%N with false by (symmetry; apply N.eqb_neq; lia).
  replace (c =? 116)%N with false by (symmetry; apply N.eqb_neq; lia).
  replace (c =? 102)%N with false by (symmetry; apply N.eqb_neq; lia).
  rewrite Hnum. reflexivity.
Qed.

(** ** [json.loads] after [json.dumps]: objects and arrays *)

Lemma skip_ws_nonblank (c : N) (s : str) : is_ws c = false → skip_ws (c :: s) = c :: s.
Proof. intros H. cbn [skip_ws]. rewrite H. reflexivity. Qed.

Lemma skip_ws_str_of_int (z : Z) (tail : str) :
  skip_ws (str_of_int z ++ tail) = str_of_int z ++ tail.
Proof.
  destruct (str_of_int_head z) as (c & ds & E & Hc). rewrite E.
  apply skip_ws_nonblank. unfold is_ws.
  assert (Hrange : (c = 45 ∨ 48 ≤ c ≤ 57)%N).
  { destruct Hc as [->|Hc]; [left; reflexivity|right].
    unfold is_digit in Hc. apply andb_true_iff in Hc as [H1 H2].
    apply N.leb_le in H1. apply N.leb_le in H2. lia. }
  repeat (apply orb_false_iff; split); apply N.eqb_neq; lia.
Qed.

Lemma dumps_pair_text (k : str) (v : Z) (tail : str) :
  dumps_pair (k, v) ++ tail
  = QUOTE :: concat (escape_char <$> k)
    ++ QUOTE :: 58%N :: 32%N :: str_of_int v ++ tail.
Proof.
  unfold dumps_pair, encode_basestring_ascii. cbn [fst snd].
  change (lit ": ") with [58%N; 32%N].
  cbn [app]. rewrite <- !app_assoc. reflexivity.
Qed.

Lemma encode_basestring_ascii_text (s tail : str) :
  encode_basestring_ascii s ++ tail
  = QUOTE :: concat (escape_char <$> s) ++ QUOTE :: tail.
Proof.
  unfold encode_basestring_ascii. cbn [app]. rewrite <- app_assoc. reflexivity.
Qed.

(** One printed member, followed by a comma or a closing brace. *)
Lemma parse_members_step (depth fuel : nat) (k : str) (v : Z) (c : N) (tail : str) :
  unicode_text k → int64 v → c = 125%N ∨ c = 44%N →
  parse_members (scan_once (S depth)) (S fuel) (dumps_pair (k, v) ++ c :: tail)
  = if (c =? 125)%N then Some ([(k, JInt v)], tail)
    else match parse_members (scan_once (S depth)) fuel (skip_ws tail) with
         | Some (kvs, r) => Some ((k, JInt v) :: kvs, r)
         | None => None
         end.
Proof.
  intros Hk Hv Hc. rewrite dumps_pair_text. cbn [parse_members].
  change (QUOTE =? QUOTE)%N with true. cbv iota.
  rewrite scanstring_escaped; [|exact Hk|rewrite length_app; simpl; lia].
  change (skip_ws (58%N :: 32%N :: str_of_int v ++ c :: tail))
    with (58%N :: 32%N :: str_of_int v ++ c :: tail).
  change (58 =? 58)%N with true. cbv iota.
  change (skip_ws (32%N :: str_of_int v ++ c :: tail))
    with (skip_ws (str_of_int v ++ c :: tail)).
  rewrite skip_ws_str_of_int, (scan_once_str_of_int depth v _ Hv)
    by (destruct Hc as [-> | ->]; repeat split; discriminate).
  destruct Hc as [-> | ->]; reflexivity.
Qed.

Lemma join_cons2 (sep p q : str) (rest : list str) :
  join sep (p :: q :: rest) = p ++ sep ++ join sep (q :: rest).
Proof. reflexivity. Qed.

Lemma parse_members_dumps (depth : nat) (kv : str * Z) (d : list (str * Z))
    (fuel : nat) (rest : str) :
  Forall unicode_text (fst <$> (kv :: d)) → Forall int64 (snd <$> (kv :: d)) →
  length d < fuel →
  parse_members (scan_once (S depth)) fuel
    (join (lit ", ") (dumps_pair <$> kv :: d) ++ 125%N :: rest)
  = Some ((λ kv : str * Z, (kv.1, JInt kv.2)) <$> kv :: d, rest).
Proof.
  revert kv fuel. induction d as [|kv' d IH]; intros [k v] fuel Hks Hvs Hfuel.
  - destruct fuel as [|fuel]; [simpl in Hfuel; lia|].
    apply Forall_cons in Hks as [Hk _]. apply Forall_cons in Hvs as [Hv _].
    change (join (lit ", ") (dumps_pair <$> [(k, v)])) with (dumps_pair (k, v)).
    rewrite (parse_members_step depth fuel k v 125 rest Hk Hv) by (left; reflexivity).
    reflexivity.
  - destruct fuel as [|fuel]; [simpl in Hfuel; lia|].
    apply Forall_cons in Hks as [Hk Hks]. apply Forall_cons in Hvs as [Hv Hvs].
    rewrite !fmap_cons, join_cons2. rewrite <- !fmap_cons.
    change (lit ", ") with [44%N; 32%N] at 1.
    rewrite <- !app_assoc. cbn [app].
    rewrite (parse_members_step depth fuel k v 44 _ Hk Hv) by (right; reflexivity).
    change (44 =? 125)%N with false. cbv iota.
    assert (Hnext : ∃ t, join (lit ", ") (dumps_pair <$> kv' :: d) ++ 125%N :: rest
                         = QUOTE :: t).
    { destruct d; eexists; rewrite ?fmap_cons, ?join_cons2;
        unfold dumps_pair at 1, encode_basestring_ascii; reflexivity. }
    destruct Hnext as [t Ht].
    change (skip_ws (32%N :: ?s)) with (skip_ws s).
    rewrite Ht, (skip_ws_nonblank QUOTE t eq_refl), <- Ht.
    rewrite (IH kv' fuel Hks Hvs) by (simpl in Hfuel; lia).
    reflexivity.
Qed.

(** One printed string element, followed by a comma or a closing
    bracket. *)
Lemma parse_elements_step (depth fuel : nat) (s : str) (c : N) (tail : str) :
  unicode_text s → c = 93%N ∨ c = 44%N →
  parse_elements (scan_once (S depth)) (S fuel)
    (encode_basestring_ascii s ++ c :: tail)
  = if (c =? 93)%N then Some ([JStr s], tail)
    else match parse_elements (scan_once (S depth)) fuel (skip_ws tail) with
         | Some (vs, r) => Some (JStr s :: vs, r)
         | None => None
         end.
Proof.
  intros Hs Hc. rewrite encode_basestring_ascii_text.
  cbn [parse_elements scan_once].
  change (QUOTE =? QUOTE)%N with true. cbv iota.
  rewrite scanstring_escaped; [|exact Hs|rewrite length_app; simpl; lia].
  rewrite skip_ws_nonblank by (destruct Hc as [-> | ->]; reflexivity).
  destruct Hc as [-> | ->]; reflexivity.
Qed.

Lemma parse_elements_dumps (depth : nat) (s : str) (l : list str)
    (fuel : nat) (rest : str) :
  Forall unicode_text (s :: l) → length l < fuel →
  parse_elements (scan_once (S depth)) fuel
    (join (lit ", ") (encode_basestring_ascii <$> s :: l) ++ 93%N :: rest)
  = Some (JStr <$> s :: l, rest).
Proof.
  revert s fuel. induction l as [|s' l IH]; intros s fuel Hs Hfuel.
  - destruct fuel as [|fuel]; [simpl in Hfuel; lia|].
    apply Forall_cons in Hs as [Hs _].
    change (join (lit ", ") (encode_basestring_ascii <$> [s]))
      with (encode_basestring_ascii s).
    rewrite (parse_elements_step depth fuel s 93 rest Hs) by (left; reflexivity).
    reflexivity.
  - destruct fuel as [|fuel]; [simpl in Hfuel; lia|].
    apply Forall_cons in Hs as [Hs Hl].
    rewrite !fmap_cons, join_cons2. rewrite <- !fmap_cons.
    change (lit ", ") with [44%N; 32%N] at 1.
    rewrite <- !app_assoc. cbn [app].
    rewrite (parse_elements_step depth fuel s 44 _ Hs) by (right; reflexivity).
    change (44 =? 93)%N with false. cbv iota.
    assert (Hnext : ∃ t, join (lit ", ") (encode_basestring_ascii <$> s' :: l)
                           ++ 93%N :: rest = QUOTE :: t).
    { destruct l; eexists; rewrite ?fmap_cons, ?join_cons2;
        unfold encode_basestring_ascii at 1; reflexivity. }
    destruct Hnext as [t Ht].
    change (skip_ws (32%N :: ?s)) with (skip_ws s).
    rewrite Ht, (skip_ws_nonblank QUOTE t eq_refl), <- Ht.
    rewrite (IH s' fuel Hl) by (simpl in Hfuel; lia).
    reflexivity.
Qed.

Lemma join_length (sep : str) (parts : list str) :
  Forall (λ p, 1 ≤ length p) parts → length parts ≤ length (join sep parts).
Proof.
  induction 1 as [|p parts Hp Hparts IH]; [reflexivity|].
  destruct parts as [|q parts]; [simpl; lia|].
  rewrite join_cons2, !length_app. simpl in IH |- *. lia.
Qed.

Lemma dict_set_fresh (k : str) (v : json) (d : list (str * json)) :
  k ∉ fst <$> d → dict_set k v d = d ++ [(k, v)].
Proof.
  induction d as [|[k' v'] d IH]; [reflexivity|].
  rewrite fmap_cons, not_elem_of_cons. intros [Hne Hnin]. simpl in Hne.
  cbn [dict_set app].
  rewrite bool_decide_eq_false_2 by exact Hne. rewrite (IH Hnin). reflexivity.
Qed.

Lemma dict_of_pairs_from (ps acc : list (str * json)) :
  NoDup (fst <$> acc ++ ps) →
  fold_left (λ d kv, dict_set kv.1 kv.2 d) ps acc = acc ++ ps.
Proof.
  revert acc. induction ps as [|[k v] ps IH]; intros acc Hnd.
  - rewrite app_nil_r. reflexivity.
  - cbn [fold_left fst snd].
    assert (Hk : k ∉ fst <$> acc).
    { rewrite fmap_app, fmap_cons in Hnd.
      apply NoDup_app in Hnd as (_ & Hdis & _).
      intros Hin. apply (Hdis k Hin). left. }
    rewrite (dict_set_fresh k v acc Hk).
    rewrite IH by (rewrite <- app_assoc; exact Hnd).
    rewrite <- app_assoc. reflexivity.
Qed.

Lemma dict_of_pairs_nodup (ps : list (str * json)) :
  NoDup (fst <$> ps) → dict_of_pairs ps = ps.
Proof. intros H. apply (dict_of_pairs_from ps []). exact H. Qed.

Lemma json_loads_value (c : N) (r : str) (v : json) :
  c ≠ 65279%N → is_ws c = false →
  scan_once RECURSION_LIMIT (c :: r) = Some (v, []) →
  json_loads (c :: r) = Some v.
Proof.
  intros Hbom Hws Hscan. unfold json_loads, starts_with_bom.
  apply N.eqb_neq in Hbom. rewrite Hbom.
  rewrite (skip_ws_nonblank c r Hws), Hscan. reflexivity.
Qed.

Lemma scan_once_object (depth : nat) (r : str) (c1 : N) (r1 : str) :
  skip_ws r = c1 :: r1 → c1 ≠ 125%N →
  scan_once (S depth) (123%N :: r)
  = match parse_members (scan_once depth) (length r) (c1 :: r1) with
    | Some (kvs, r') => Some (JObj (dict_of_pairs kvs), r')
    | None => None
    end.
Proof.
  intros Hr Hc. cbn [scan_once].
  change (123 =? QUOTE)%N with false. change (123 =? 123)%N with true. cbv iota.
  rewrite Hr. apply N.eqb_neq in Hc. rewrite Hc. reflexivity.
Qed.

Lemma scan_once_array (depth : nat) (r : str) (c1 : N) (r1 : str) :
  skip_ws r = c1 :: r1 → c1 ≠ 93%N →
  scan_once (S depth) (91%N :: r)
  = match parse_elements (scan_once depth) (length r) (c1 :: r1) with
    | Some (vs, r') => Some (JArr vs, r')
    | None => None
    end.
Proof.
  intros Hr Hc. cbn [scan_once].
  change (91 =? QUOTE)%N with false. change (91 =? 123)%N with false.
  change (91 =? 91)%N with true. cbv iota.
  rewrite Hr. apply N.eqb_neq in Hc. rewrite Hc. reflexivity.
Qed.

(** A printed dictionary is read back as the same dictionary. *)
Lemma json_loads_dumps_dict (d : list (str * Z)) :
  NoDup (fst <$> d) → Forall unicode_text (fst <$> d) → Forall int64 (snd <$> d) →
  json_loads (json_dumps (PDict d)) = Some (json_of_pyval (PDict d)).
Proof.
  intros Hnd Hks Hvs. cbn [json_dumps json_of_pyval].
  change (lit "{") with [123%N]. change (lit "}") with [125%N].
  change ([123%N] ++ ?t) with (123%N :: t).
  apply json_loads_value; [discriminate|reflexivity|].
  destruct d as [|kv d]; [reflexivity|].
  change RECURSION_LIMIT with (S (S 998)).
  assert (Hq : ∃ t, join (lit ", ") (dumps_pair <$> kv :: d) ++ [125%N] = QUOTE :: t).
  { destruct d; eexists; rewrite ?fmap_cons, ?join_cons2;
      unfold dumps_pair at 1, encode_basestring_ascii; reflexivity. }
  destruct Hq as [t Ht].
  assert (Hlen : length d < length (join (lit ", ") (dumps_pair <$> kv :: d) ++ [125%N])).
  { assert (Hj : length (kv :: d)
                 ≤ length (join (lit ", ") (dumps_pair <$> kv :: d))).
    { rewrite <- (length_fmap dumps_pair (kv :: d)). apply join_length.
      apply Forall_fmap, Forall_true. intros [k v].
      unfold compose, dumps_pair, encode_basestring_ascii.
      cbn [fst snd app length]. lia. }
    rewrite length_app. cbn [length] in Hj |- *. lia. }
  rewrite (scan_once_object _ _ QUOTE t)
    by (first [rewrite Ht; reflexivity | discriminate]).
  rewrite <- Ht. cbn [length].
  rewrite (parse_members_dumps _ kv d _ [] Hks Hvs Hlen).
  rewrite dict_of_pairs_nodup; [reflexivity|].
  rewrite <- list_fmap_compose. exact Hnd.
Qed.

(** A printed list of strings is read back as the same list. *)
Lemma json_loads_dumps_list (l : list str) :
  Forall unicode_text l →
  json_loads (json_dumps (PList l)) = Some (json_of_pyval (PList l)).
Proof.
  intros Hl. cbn [json_dumps json_of_pyval].
  change (lit "[") with [91%N]. change (lit "]") with [93%N].
  change ([91%N] ++ ?t) with (91%N :: t).
  apply json_loads_value; [discriminate|reflexivity|].
  destruct l as [|s l]; [reflexivity|].
  change RECURSION_LIMIT with (S (S 998)).
  assert (Hq : ∃ t, join (lit ", ") (encode_basestring_ascii <$> s :: l) ++ [93%N]
                    = QUOTE :: t).
  { destruct l; eexists; rewrite ?fmap_cons, ?join_cons2;
      unfold encode_basestring_ascii at 1; reflexivity. }
  destruct Hq as [t Ht].
  assert (Hlen : length l
                 < length (join (lit ", ") (encode_basestring_ascii <$> s :: l) ++ [93%N])).
  { assert (Hj : length (s :: l)
                 ≤ length (join (lit ", ") (encode_basestring_ascii <$> s :: l))).
    { rewrite <- (length_fmap encode_basestring_ascii (s :: l)). apply join_length.
      apply Forall_fmap, Forall_true. intros s0.
      unfold compose, encode_basestring_ascii. cbn [app length]. lia. }
    rewrite length_app. cbn [length] in Hj |- *. lia. }
  rewrite (scan_once_array _ _ QUOTE t)
    by (first [rewrite Ht; reflexivity | discriminate]).
  rewrite <- Ht. cbn [length].
  rewrite (parse_elements_dumps _ s l _ [] Hl Hlen).
  reflexivity.
Qed.

(** The two limits of the decoder: a thousand levels of nesting and
    4300 digits of an integer are read, one more is refused; a number
    with a fraction is not an integer and has no such limit. *)
Example json_loads_limits :
  is_Some (json_loads (replicate 1000 91%N ++ replicate 1000 93%N))
  ∧ json_loads (replicate 1001 91%N ++ replicate 1001 93%N) = None
  ∧ is_Some (json_loads (replicate 4300 49%N))
  ∧ json_loads (replicate 4301 49%N) = None
  ∧ json_loads (45%N :: replicate 4301 49%N) = None
  ∧ is_Some (json_loads (replicate 4301 49%N ++ lit ".5")).
Proof.
  split; [vm_compute; eexists; reflexivity|].
  split; [vm_compute; reflexivity|].
  split; [vm_compute; eexists; reflexivity|].
  split; [vm_compute; reflexivity|].
  split; [vm_compute; reflexivity|].
  vm_compute. eexists. reflexivity.
Qed.

(** ** The round trip *)

Lemma not_sentinel (c : N) (t : str) :
  c ≠ 110%N → c ≠ 48%N → c :: t ∉ SENTINELS.
Proof.
  intros H1 H2 Hin. unfold SENTINELS in Hin.
  apply elem_of_cons in Hin as [Hin|Hin]; [injection Hin as -> _; apply H1; reflexivity|].
  apply elem_of_cons in Hin as [Hin|Hin]; [injection Hin as -> _; apply H2; reflexivity|].
  apply elem_of_cons in Hin as [Hin|Hin]; [discriminate|].
  apply elem_of_nil in Hin. exact Hin.
Qed.

Lemma decode_column_parsed (dflt v : json) (c : N) (t : str) :
  c ≠ 110%N → c ≠ 48%N → json_loads (c :: t) = Some v →
  decode_column json_loads dflt (Some (c :: t)) = v.
Proof.
  intros H1 H2 Hv. unfold decode_column. cbn [truthy andb].
  rewrite bool_decide_eq_false_2 by (apply not_sentinel; assumption).
  cbn [negb]. rewrite Hv. reflexivity.
Qed.

Lemma decode_dumped_enchants (item : ItemStack) :
  NoDup (fst <$> spec_enchants item) →
  Forall unicode_text (fst <$> spec_enchants item) →
  Forall int64 (snd <$> spec_enchants item) →
  decode_column json_loads (JObj []) (Some (json_dumps (extract_enchants item)))
  = json_of_pyval (PDict (spec_enchants item)).
Proof.
  unfold extract_enchants, spec_enchants.
  destruct (item_meta item) as [meta|]; [|reflexivity].
  destruct (meta_enchants meta) as [d|]; [|reflexivity].
  cbn [default]. intros Hnd Hks Hvs.
  pose proof (json_loads_dumps_dict d Hnd Hks Hvs) as Hload.
  cbn [json_dumps] in Hload |- *. change (lit "{") with [123%N] in Hload |- *.
  change ([123%N] ++ ?t) with (123%N :: t) in Hload |- *.
  apply decode_column_parsed; [discriminate|discriminate|exact Hload].
Qed.

Lemma decode_dumped_lore (item : ItemStack) :
  Forall unicode_text (spec_lore item) →
  decode_column json_loads (JArr []) (Some (json_dumps (extract_lore item)))
  = json_of_pyval (PList (spec_lore item)).
Proof.
  unfold extract_lore, spec_lore.
  destruct (item_meta item) as [meta|]; [|reflexivity].
  destruct (meta_lore meta) as [l|]; [|reflexivity].
  cbn [default]. intros Hl.
  pose proof (json_loads_dumps_list l Hl) as Hload.
  cbn [json_dumps] in Hload |- *. change (lit "[") with [91%N] in Hload |- *.
  change ([91%N] ++ ?t) with (91%N :: t) in Hload |- *.
  apply decode_column_parsed; [discriminate|discriminate|exact Hload].
Qed.

Lemma decode_display_name (item : ItemStack) :
  str_or (extract_display_name item) [] = spec_display_name item.
Proof.
  unfold extract_display_name, spec_display_name.
  destruct (item_meta item) as [meta|]; [|reflexivity].
  destruct (meta_display_name meta) as [[|c s]|]; reflexivity.
Qed.

Lemma extract_damage_spec (item : ItemStack) : extract_damage item = spec_damage item.
Proof. unfold extract_damage, spec_damage. destruct (item_meta item); reflexivity. Qed.

(** The flag is written as 1 or 0 and read back with [bool]. *)
Lemma extract_unbreakable_spec (item : ItemStack) :
  py_bool (PInt (if extract_unbreakable item then 1 else 0)) = spec_unbreakable item.
Proof.
  unfold extract_unbreakable, spec_unbreakable.
  destruct (item_meta item) as [meta|]; [|reflexivity].
  cbn [fmap option_fmap option_map default].
  destruct (meta_is_unbreakable meta); reflexivity.
Qed.

Lemma int_or_none_typed (x : option Z) : int_or_none (PInt <$> x) = Some x.
Proof. destruct x; reflexivity. Qed.

Lemma omap_fmap_Some {A B C} (f : B → option C) (g : A → B) (h : A → C) (l : list A) :
  Forall (λ x, f (g x) = Some (h x)) l → omap f (g <$> l) = h <$> l.
Proof.
  induction 1 as [|x l Hx _ IH]; [reflexivity|].
  rewrite !fmap_cons. cbn [omap list_omap]. rewrite Hx, IH. reflexivity.
Qed.

(** Decoding the row written for a valid item gives the item's slot
    record: the row is not skipped. *)
Lemma decode_inventory_row_encoded (player : Player) (slot_type : str) (slot : Z)
    (item : ItemStack) :
  valid_item item →
  decode_inventory_row (inventory_row player slot_type slot item)
  = Some (spec_record player slot_type slot item).
Proof.
  intros (Hty & Hnd & Hks & Hvs & Hl).
  unfold decode_inventory_row, inventory_row, spec_record.
  cbn [inv_xuid inv_name inv_slot_type inv_slot inv_type inv_amount inv_damage
       inv_display_name inv_enchants inv_lore inv_unbreakable inv_data].
  rewrite (decode_dumped_enchants item Hnd Hks Hvs), (decode_dumped_lore item Hl).
  rewrite (decode_display_name item), int_or_none_typed.
  cbn [int_or py_int mbind option_bind fmap option_fmap option_map default].
  rewrite extract_damage_spec, extract_unbreakable_spec.
  do 2 f_equal.
  destruct (item_type item); [contradiction|reflexivity].
Qed.

(** C1: saving a live player whose items are valid and reading the
    inventory back yields the player's slot records, as a multiset: one
    record per non-empty numbered or equipment slot, with kind, count,
    damage, display name, enchantments, lore, unbreakable flag and
    auxiliary data tag as in the live state (an empty enchantment mapping
    and an empty lore included); a data tag of [None] comes back as
    [None], never as 0. *)
Theorem snapshot_round_trip (db : DB) (player : Player) :
  Forall valid_item (carried_items player) →
  get_inventory (save_inventory db player) (player_xuid player)
  ≡ₚ spec_records player
  ∧ d_data <$> get_inventory (save_inventory db player) (player_xuid player)
    ≡ₚ item_data <$> carried_items player.
Proof.
  intros Hvalid. unfold carried_items in Hvalid.
  apply Forall_app in Hvalid as [Hn He].
  assert (Heq : get_inventory (save_inventory db player) (player_xuid player)
                = spec_records player).
  { unfold get_inventory, spec_records.
    rewrite select_saved_inventory, inventory_values_spec, omap_app.
    f_equal.
    - apply omap_fmap_Some. rewrite Forall_fmap in Hn.
      eapply Forall_impl; [exact Hn|]. intros [i it] Hit.
      apply decode_inventory_row_encoded, Hit.
    - apply omap_fmap_Some. rewrite Forall_fmap in He.
      eapply Forall_impl; [exact He|]. intros [st it] Hit.
      apply decode_inventory_row_encoded, Hit. }
  rewrite Heq. split; [reflexivity|].
  unfold spec_records, carried_items.
  rewrite !fmap_app, <- !list_fmap_compose. reflexivity.
Qed.

Lemma snapshot_round_trip_witness :
  Forall valid_item (carried_items loaded_player)
  ∧ get_inventory (save_inventory (save_inventory empty_db loaded_player) loaded_player)
      (player_xuid loaded_player)
    ≡ₚ spec_records loaded_player.
Proof.
  assert (H : Forall valid_item (carried_items loaded_player)).
  { apply (bool_decide_unpack _). vm_compute. exact I. }
  split; [exact H|].
  exact (proj1 (snapshot_round_trip (save_inventory empty_db loaded_player)
                  loaded_player H)).
Defined.

(** Damage and the unbreakable flag come back as the live items show
    them. *)
Example damage_round_trip :
  (λ d, (d_type d, d_damage d, d_unbreakable d))
    <$> get_inventory (save_inventory empty_db loaded_player) (lit "2003")
  = [(lit "minecraft:diamond_sword", 12%Z, true); (lit "minecraft:dirt", 0%Z, false);
     (lit "minecraft:iron_helmet", 3%Z, false); (lit "minecraft:dirt", 0%Z, false)]
  ∧ (λ it, (item_type it, spec_damage it, spec_unbreakable it))
      <$> carried_items loaded_player
    = [(lit "minecraft:diamond_sword", 12%Z, true); (lit "minecraft:dirt", 0%Z, false);
       (lit "minecraft:iron_helmet", 3%Z, false); (lit "minecraft:dirt", 0%Z, false)].
Proof. vm_compute. split; reflexivity. Qed.

(** The data tag: [None] and [Some 0] are stored and read back apart. *)
Example data_tag_round_trip :
  d_data <$> get_inventory (save_inventory empty_db loaded_player) (lit "2003")
  = [Some 0%Z; None; None; None]
  ∧ d_lore <$> get_inventory (save_inventory empty_db loaded_player) (lit "2003")
    = [JArr [JStr (lit "first line"); JStr [233; 128512; QUOTE; BACKSLASH; 10]%N];
       JArr []; JArr []; JArr []].
Proof. vm_compute. split; reflexivity. Qed.

(** * Further properties *)

(** ** Ender-chest snapshots *)

Lemma decode_enderchest_row_encoded (player : Player) (slot : Z) (item : ItemStack) :
  valid_item item →
  decode_enderchest_row (enderchest_row player slot item)
  = Some (spec_ender_record player slot item).
Proof.
  intros (Hty & Hnd & Hks & Hvs & Hl).
  unfold decode_enderchest_row, enderchest_row, spec_ender_record.
  cbn [ec_xuid ec_name ec_slot ec_type ec_amount ec_damage
       ec_display_name ec_enchants ec_lore ec_unbreakable ec_data].
  rewrite (decode_dumped_enchants item Hnd Hks Hvs), (decode_dumped_lore item Hl).
  rewrite (decode_display_name item), int_or_none_typed.
  cbn [int_or py_int mbind option_bind fmap option_fmap option_map default].
  rewrite extract_damage_spec, extract_unbreakable_spec.
  do 2 f_equal.
  destruct (item_type item); [contradiction|reflexivity].
Qed.

(** X1: saving a live player's ender chest and reading it back yields,
    as a multiset, one record per non-empty slot with the slot index and
    the item's fields as in the live state, for valid items and whatever
    the table held before. *)
Theorem enderchest_round_trip (db : DB) (player : Player) :
  Forall valid_item (snd <$> spec_numbered (player_ender_chest player)) →
  get_enderchest (save_enderchest db player) (player_xuid player)
  ≡ₚ spec_ender_records player.
Proof.
  intros Hvalid.
  assert (Heq : get_enderchest (save_enderchest db player) (player_xuid player)
                = spec_ender_records player).
  { unfold get_enderchest, spec_ender_records.
    rewrite select_saved_enderchest, enderchest_values_spec.
    apply omap_fmap_Some. rewrite Forall_fmap in Hvalid.
    eapply Forall_impl; [exact Hvalid|]. intros [i it] Hit.
    apply decode_enderchest_row_encoded, Hit. }
  rewrite Heq. reflexivity.
Qed.

Lemma enderchest_round_trip_witness :
  Forall valid_item (snd <$> spec_numbered (player_ender_chest loaded_player))
  ∧ get_enderchest (save_enderchest (save_enderchest empty_db loaded_player) loaded_player)
      (player_xuid loaded_player)
    ≡ₚ spec_ender_records loaded_player.
Proof.
  assert (H : Forall valid_item
                (snd <$> spec_numbered (player_ender_chest loaded_player))).
  { apply (bool_decide_unpack _). vm_compute. exact I. }
  split; [exact H|].
  exact (enderchest_round_trip (save_enderchest empty_db loaded_player)
           loaded_player H).
Defined.

(** X2: saving the same ender chest twice in a row reads back, for every
    identifier, as saving it once. *)
Theorem save_enderchest_idempotent (db : DB) (player : Player) (xuid : str) :
  get_enderchest (save_enderchest (save_enderchest db player) player) xuid
  = get_enderchest (save_enderchest db player) xuid.
Proof.
  unfold get_enderchest. f_equal.
  destruct (decide (xuid = player_xuid player)) as [->|Hne].
  - rewrite !select_saved_enderchest. reflexivity.
  - unfold save_enderchest at 1. cbn [ender_chests].
    apply select_replace_rows_other; [apply enderchest_values_xuid|exact Hne].
Qed.

(** X3: a save for one player leaves what is read for every other
    identifier as it was, in the table it writes; it does not touch the
    other snapshot table nor the users table at all. *)
Theorem save_leaves_other_players (db : DB) (player : Player) (other : str) :
  other ≠ player_xuid player →
  get_inventory (save_inventory db player) other = get_inventory db other
  ∧ get_enderchest (save_enderchest db player) other = get_enderchest db other
  ∧ (∀ y, get_enderchest (save_inventory db player) y = get_enderchest db y)
  ∧ (∀ y, get_inventory (save_enderchest db player) y = get_inventory db y)
  ∧ users (save_inventory db player) = users db
  ∧ users (save_enderchest db player) = users db.
Proof.
  intros Hne. split.
  { unfold get_inventory. f_equal. unfold save_inventory. cbn [inventories].
    apply select_replace_rows_other; [apply inventory_values_xuid|exact Hne]. }
  split.
  { unfold get_enderchest. f_equal. unfold save_enderchest. cbn [ender_chests].
    apply select_replace_rows_other; [apply enderchest_values_xuid|exact Hne]. }
  repeat split.
Qed.

Lemma save_leaves_other_players_witness :
  player_xuid helmet_wearer ≠ player_xuid loaded_player
  ∧ get_inventory
      (save_inventory (save_inventory empty_db helmet_wearer) loaded_player)
      (player_xuid helmet_wearer)
    = get_inventory (save_inventory empty_db helmet_wearer) (player_xuid helmet_wearer).
Proof.
  assert (H : player_xuid helmet_wearer ≠ player_xuid loaded_player)
    by (vm_compute; discriminate).
  split; [exact H|].
  exact (proj1 (save_leaves_other_players
                  (save_inventory empty_db helmet_wearer) loaded_player
                  (player_xuid helmet_wearer) H)).
Defined.

Lemma omap_length_filter {A B} (f : A → option B) (P : A → Prop)
    `{!∀ x, Decision (P x)} (l : list A) :
  (∀ x, f x = None ↔ P x) →
  length (omap f l) = length (filter (λ x, ¬ P x) l).
Proof.
  intros Hf. induction l as [|x l IH]; [reflexivity|].
  cbn [omap list_omap]. destruct (f x) as [y|] eqn:E.
  - rewrite filter_cons_True by (rewrite <- Hf, E; discriminate).
    cbn [length]. rewrite IH. reflexivity.
  - rewrite filter_cons_False by (intros Hn; apply Hn, Hf, E). exact IH.
Qed.

Lemma decode_enderchest_row_damaged_enchants (row : EcRow) :
  corrupt (ec_enchants row) →
  decode_enderchest_row row
  = decode_enderchest_row (with_ender_json_columns (Some (lit "{}")) (ec_lore row) row).
Proof.
  intros Hbad. unfold decode_enderchest_row, with_ender_json_columns.
  cbn [ec_xuid ec_name ec_slot ec_type ec_amount ec_damage
       ec_display_name ec_enchants ec_lore ec_unbreakable ec_data].
  rewrite (decode_column_corrupt _ _ Hbad). reflexivity.
Qed.

(** X5: [get_enderchest] leaves a row out only when [int] refuses one of
    its slot, amount, damage and data columns: it returns as many records
    as there are other rows, in row order.  A row whose enchantment text
    is not valid JSON is not left out for that: it reads as if the text
    were [{}], with the empty mapping, and with the empty sequence for a
    lore text that is not valid JSON either. *)
Theorem enderchest_corrupt_row (db : DB) (xuid : str)
    (before after : list EcRow) (row : EcRow) :
  select_where ec_xuid xuid (ender_chests db) = before ++ row :: after →
  corrupt (ec_enchants row) →
  length (get_enderchest db xuid)
  = length (filter (λ r, ¬ unreadable_ender_row r) (before ++ row :: after))
  ∧ get_enderchest db xuid
    = omap decode_enderchest_row before
      ++ option_list (decode_enderchest_row row)
      ++ omap decode_enderchest_row after
  ∧ (decode_enderchest_row row = None ↔ unreadable_ender_row row)
  ∧ decode_enderchest_row row
    = decode_enderchest_row
        (with_ender_json_columns (Some (lit "{}")) (ec_lore row) row)
  ∧ (∀ d, decode_enderchest_row row = Some d →
          ed_enchants d = JObj []
          ∧ (corrupt (ec_lore row) → ed_lore d = JArr [])).
Proof.
  intros Hrows Hbad. unfold get_enderchest. rewrite Hrows.
  split; [apply omap_length_filter, decode_enderchest_row_skipped|].
  split; [apply omap_app_cons|].
  split; [apply decode_enderchest_row_skipped|].
  split; [apply decode_enderchest_row_damaged_enchants, Hbad|].
  intros d Hd. apply decode_enderchest_row_fields in Hd as (-> & -> & _).
  split; [apply decode_column_corrupt, Hbad|].
  intros Hlore. apply decode_column_corrupt, Hlore.
Qed.

Lemma enderchest_corrupt_row_witness :
  corrupt (Some (lit "{power: 2"))
  ∧ (ed_enchants <$> get_enderchest (damaged_chest (Some (PInt 1))) (lit "2003"))
    = [JObj []; JObj []]
  ∧ (ed_slot <$> get_enderchest (damaged_chest (Some (PInt 1))) (lit "2003"))
    = [1%Z; 5%Z].
Proof.
  assert (Hbad : corrupt (Some (lit "{power: 2"))).
  { eexists. split; [reflexivity|]. vm_compute. reflexivity. }
  split; [exact Hbad|].
  pose proof (enderchest_corrupt_row (damaged_chest (Some (PInt 1))) (lit "2003")
                [enderchest_row loaded_player 1 dirt] [] _ eq_refl Hbad)
    as (_ & Hget & _).
  rewrite Hget. vm_compute. split; reflexivity.
Defined.

(** A text in the amount column: the row is left out, the other stays. *)
Example enderchest_skipped_row_example :
  ed_slot <$> get_enderchest (damaged_chest (Some (PForeign None true))) (lit "2003")
  = [1%Z]
  ∧ ed_amount <$> get_enderchest (damaged_chest (Some (PForeign (Some 2%Z) true))) (lit "2003")
    = [64%Z; 2%Z]
  ∧ ed_amount <$> get_enderchest (damaged_chest None) (lit "2003") = [64%Z; 1%Z].
Proof. vm_compute. repeat split. Qed.

(** ** Shape of the stored rows *)

Lemma numbered_from_indices (k : nat) (slots : Inventory) :
  let l := omap (λ ia : nat * option ItemStack,
                   match ia.2 with
                   | Some it =>
                       if decide (non_empty it) then Some (Z.of_nat ia.1, it) else None
                   | None => None
                   end)
                (imap (λ i x, (k + i, x)) slots) in
  Forall (λ ia : Z * ItemStack, (Z.of_nat k ≤ ia.1 < Z.of_nat (k + length slots))%Z) l
  ∧ NoDup (fst <$> l).
Proof.
  revert k. induction slots as [|item slots IH]; intros k; cbn zeta.
  - split; constructor.
  - cbn [imap omap list_omap length].
    rewrite (imap_ext ((λ i x, (k + i, x)) ∘ S) (λ i x, (S k + i, x)) slots)
      by (intros i x _; simpl; f_equal; lia).
    destruct (IH (S k)) as [Hb Hnd]. cbn zeta in Hb, Hnd.
    assert (Hb' : Forall (λ ia : Z * ItemStack,
                            (Z.of_nat k ≤ ia.1 < Z.of_nat (k + S (length slots)))%Z)
                    (omap (λ ia : nat * option ItemStack,
                             match ia.2 with
                             | Some it =>
                                 if decide (non_empty it)
                                 then Some (Z.of_nat ia.1, it) else None
                             | None => None
                             end)
                          (imap (λ i x, (S k + i, x)) slots))).
    { eapply Forall_impl; [exact Hb|]. intros ia H. simpl in H. lia. }
    cbn [snd fst]. destruct item as [it|]; [|split; assumption].
    destruct (decide (non_empty it)); [|split; assumption].
    split.
    + constructor; [simpl; lia|exact Hb'].
    + rewrite fmap_cons. apply NoDup_cons. split; [|exact Hnd].
      intros Hin. apply list_elem_of_fmap in Hin as (ia & Hia & Hin).
      rewrite Forall_forall in Hb. specialize (Hb ia Hin). simpl in *. lia.
Qed.

Lemma spec_numbered_indices (slots : Inventory) :
  Forall (λ ia : Z * ItemStack, (0 ≤ ia.1 < Z.of_nat (length slots))%Z)
         (spec_numbered slots)
  ∧ NoDup (fst <$> spec_numbered slots).
Proof. apply (numbered_from_indices 0 slots). Qed.

Lemma spec_equipment_kinds (inv : PlayerInventory) :
  (fst <$> spec_equipment inv) `sublist_of` EQUIPMENT_KINDS.
Proof.
  unfold spec_equipment, EQUIPMENT_KINDS.
  change [lit "helmet"; lit "chestplate"; lit "leggings"; lit "boots"; lit "offhand"]
    with (fst <$> [(lit "helmet", inv_helmet inv);
                   (lit "chestplate", inv_chestplate inv);
                   (lit "leggings", inv_leggings inv);
                   (lit "boots", inv_boots inv);
                   (lit "offhand", inv_item_in_off_hand inv)]).
  generalize [(lit "helmet", inv_helmet inv); (lit "chestplate", inv_chestplate inv);
              (lit "leggings", inv_leggings inv); (lit "boots", inv_boots inv);
              (lit "offhand", inv_item_in_off_hand inv)].
  intros l. induction l as [|[st item] l IH]; [constructor|].
  cbn [omap list_omap snd fst]. rewrite fmap_cons. cbn [fst].
  destruct item as [it|]; [|apply sublist_cons, IH].
  destruct (decide (non_empty it)).
  - rewrite fmap_cons. apply sublist_skip, IH.
  - apply sublist_cons, IH.
Qed.

(** X4: after [save_inventory] the rows of the player all carry the
    player's identifier and current name, no two of them have the same
    container kind and slot index, and a numbered-slot row has an index
    below the size of the inventory; likewise after [save_enderchest] the
    rows carry identifier and name, and their slot indices are pairwise
    distinct and below the size of the ender chest. *)
Theorem saved_rows_well_formed (db : DB) (player : Player) :
  Forall (λ r, inv_xuid r = Some (player_xuid player)
               ∧ inv_name r = Some (player_name player))
         (select_where inv_xuid (player_xuid player)
            (inventories (save_inventory db player)))
  ∧ NoDup ((λ r, (inv_slot_type r, inv_slot r))
             <$> select_where inv_xuid (player_xuid player)
                   (inventories (save_inventory db player)))
  ∧ Forall (λ r, inv_slot_type r = Some (lit "slot") →
                 ∃ i : Z, inv_slot r = Some (PInt i)
                      ∧ (0 ≤ i < Z.of_nat (length (inv_slots (player_inventory player))))%Z)
           (select_where inv_xuid (player_xuid player)
              (inventories (save_inventory db player)))
  ∧ Forall (λ r, ec_xuid r = Some (player_xuid player)
                 ∧ ec_name r = Some (player_name player)
                 ∧ ∃ i : Z, ec_slot r = Some (PInt i)
                        ∧ (0 ≤ i < Z.of_nat (length (player_ender_chest player)))%Z)
           (select_where ec_xuid (player_xuid player)
              (ender_chests (save_enderchest db player)))
  ∧ NoDup (ec_slot <$> select_where ec_xuid (player_xuid player)
                         (ender_chests (save_enderchest db player))).
Proof.
  rewrite select_saved_inventory, select_saved_enderchest.
  rewrite inventory_values_spec, enderchest_values_spec.
  destruct (spec_numbered_indices (inv_slots (player_inventory player))) as [Hb Hnd].
  destruct (spec_numbered_indices (player_ender_chest player)) as [Hbe Hnde].
  pose proof (spec_equipment_kinds (player_inventory player)) as Hsub.
  assert (Hkinds : NoDup EQUIPMENT_KINDS)
    by (apply (bool_decide_unpack _); vm_compute; exact I).
  assert (Hslot : lit "slot" ∉ EQUIPMENT_KINDS)
    by (apply (bool_decide_unpack _); vm_compute; exact I).
  split.
  { apply Forall_app. split; apply Forall_fmap, Forall_true; intros; split; reflexivity. }
  split.
  { rewrite fmap_app, <- !list_fmap_compose.
    change ((λ r, (inv_slot_type r, inv_slot r))
            ∘ (λ ia : Z * ItemStack, inventory_row player (lit "slot") ia.1 ia.2))
      with ((λ i : Z, (Some (lit "slot"), Some (PInt i))) ∘ (fst : Z * ItemStack → Z)).
    change ((λ r, (inv_slot_type r, inv_slot r))
            ∘ (λ a : str * ItemStack, inventory_row player a.1 0%Z a.2))
      with ((λ st : str, (Some st, Some (PInt 0))) ∘ (fst : str * ItemStack → str)).
    rewrite !list_fmap_compose.
    apply NoDup_app. split; [|split].
    - apply NoDup_fmap_2_strong; [|exact Hnd].
      intros i j _ _ Heq. congruence.
    - intros ks Hin1 Hin2.
      apply list_elem_of_fmap in Hin1 as (i & -> & _).
      apply list_elem_of_fmap in Hin2 as (st & Heq & Hst).
      injection Heq as Heq _. subst st.
      apply Hslot. eapply elem_of_sublist; [exact Hst|exact Hsub].
    - apply NoDup_fmap_2_strong; [|eapply sublist_NoDup; [exact Hkinds|exact Hsub]].
      intros st1 st2 _ _ Heq. congruence. }
  split.
  { apply Forall_app. split; apply Forall_fmap.
    - eapply Forall_impl; [exact Hb|]. intros [i it] Hi _. simpl in *.
      exists i. split; [reflexivity|exact Hi].
    - apply Forall_forall. intros [st it] Hin Heq. simpl in Heq.
      exfalso. apply Hslot. injection Heq as <-.
      eapply elem_of_sublist; [|exact Hsub].
      apply list_elem_of_fmap. exists (st, it). split; [reflexivity|exact Hin]. }
  split.
  { apply Forall_fmap. eapply Forall_impl; [exact Hbe|]. intros [i it] Hi.
    simpl in *. split; [reflexivity|]. split; [reflexivity|].
    exists i. split; [reflexivity|exact Hi]. }
  rewrite <- list_fmap_compose.
  change (ec_slot ∘ (λ ia : Z * ItemStack, enderchest_row player ia.1 ia.2))
    with ((λ i : Z, Some (PInt i)) ∘ (fst : Z * ItemStack → Z)).
  rewrite list_fmap_compose.
  apply NoDup_fmap_2_strong; [|exact Hnde].
  intros i j _ _ Heq. congruence.
Qed.

(** ** Looking users up *)

Lemma like_other (c : N) (p s : str) :
  c ≠ PERCENT →
  like (c :: p) s
  = match s with
    | [] => false
    | d :: s' =>
        ((c =? UNDERSCORE)%N || (sql_lower_char c =? sql_lower_char d)%N) && like p s'
    end.
Proof.
  intros Hc. cbn [like]. apply N.eqb_neq in Hc. rewrite Hc. reflexivity.
Qed.

(** Every text matches itself, wildcards included. *)
Lemma like_refl (p : str) : like p p = true.
Proof.
  induction p as [|c p IH]; [reflexivity|].
  destruct (decide (c = PERCENT)) as [->|Hc].
  - rewrite like_percent. rewrite (like_percent p p), IH.
    apply orb_true_r.
  - rewrite (like_other c p (c :: p) Hc), IH, N.eqb_refl.
    rewrite orb_true_r. reflexivity.
Qed.

Lemma like_app_percent (p s t : str) :
  like p s = true → like (p ++ [PERCENT]) (s ++ t) = true.
Proof.
  revert s. induction p as [|c p IH]; intros s.
  - destruct s; [|discriminate]. intros _. apply like_percent_only.
  - destruct (decide (c = PERCENT)) as [->|Hc].
    + induction s as [|d s IHs].
      * rewrite like_percent, orb_false_r. intros H.
        change ((PERCENT :: p) ++ [PERCENT]) with (PERCENT :: p ++ [PERCENT]).
        rewrite like_percent, (IH [] H). reflexivity.
      * rewrite like_percent. intros H.
        change ((PERCENT :: p) ++ [PERCENT]) with (PERCENT :: p ++ [PERCENT]).
        rewrite like_percent.
        apply orb_true_iff in H as [H|H].
        -- rewrite (IH (d :: s) H). reflexivity.
        -- change ((d :: s) ++ t) with (d :: s ++ t). cbv iota.
           change (PERCENT :: p ++ [PERCENT]) with ((PERCENT :: p) ++ [PERCENT]).
           rewrite (IHs H). apply orb_true_r.
    + rewrite (like_other c p s Hc).
      change ((c :: p) ++ [PERCENT]) with (c :: p ++ [PERCENT]).
      rewrite (like_other c (p ++ [PERCENT]) (s ++ t) Hc).
      destruct s as [|d s]; [discriminate|].
      change ((d :: s) ++ t) with (d :: s ++ t). cbv iota.
      intros H. apply andb_true_iff in H as [H1 H2].
      rewrite H1, (IH s H2). reflexivity.
Qed.

Lemma sql_lower_pattern (pattern : str) :
  sql_lower (PERCENT :: pattern ++ [PERCENT])
  = PERCENT :: sql_lower pattern ++ [PERCENT].
Proof. unfold sql_lower. rewrite fmap_cons, fmap_app. reflexivity. Qed.

Lemma until_nul_app_percent (s : str) :
  until_nul (s ++ [PERCENT]) = until_nul s
  ∨ until_nul (s ++ [PERCENT]) = until_nul s ++ [PERCENT].
Proof.
  induction s as [|c s IH]; [right; reflexivity|].
  change ((c :: s) ++ [PERCENT]) with (c :: s ++ [PERCENT]). cbn [until_nul].
  destruct (c =? NUL)%N; [left; reflexivity|].
  destruct IH as [-> | ->]; [left|right]; reflexivity.
Qed.

(** A name is matched by itself, whatever its case and its characters. *)
Lemma name_matches_own (pattern name : str) :
  sql_lower pattern = sql_lower name → name_matches pattern name = true.
Proof.
  intros H. unfold name_matches. rewrite sql_lower_pattern, H.
  change (until_nul (PERCENT :: ?s)) with (PERCENT :: until_nul s).
  rewrite like_percent.
  destruct (until_nul_app_percent (sql_lower name)) as [-> | ->].
  - rewrite like_refl. reflexivity.
  - rewrite <- (app_nil_r (until_nul (sql_lower name))) at 2.
    rewrite (like_app_percent _ _ [] (like_refl _)).
    reflexivity.
Qed.

Lemma name_matches_empty (name : str) : name_matches [] name = true.
Proof.
  unfold name_matches.
  change (until_nul (sql_lower (PERCENT :: [] ++ [PERCENT]))) with [PERCENT; PERCENT].
  rewrite like_percent, like_percent_only. reflexivity.
Qed.

(** A stored row whose name matches is among the results. *)
Lemma matching_row_found (db : DB) (pattern x : str) (row : UserRow) :
  users db !! x = Some row → name_matches pattern (row_name row) = true →
  user_of_row (x, row) ∈ search_users_by_name db pattern
  ∧ is_Some (get_user_by_name db pattern).
Proof.
  intros Hrow Hmatch.
  assert (Hin : user_of_row (x, row) ∈ search_users_by_name db pattern).
  { unfold search_users_by_name. rewrite select_users_like_perm.
    apply list_elem_of_filter. split; [exact Hmatch|].
    unfold all_users. apply list_elem_of_fmap. exists (x, row).
    split; [reflexivity|]. apply elem_of_map_to_list. exact Hrow. }
  split; [exact Hin|].
  unfold get_user_by_name. fold (search_users_by_name db pattern).
  destruct (search_users_by_name db pattern) as [|u l].
  - apply elem_of_nil in Hin. contradiction.
  - eexists. reflexivity.
Qed.

(** X6: right after [save_user], a search for the player's own name, in
    any letter case and whatever characters the name contains, finds the
    player with the new join time and leave time 0, and
    [get_user_by_name] returns somebody. *)
Theorem saved_user_found_by_name (db : DB) (player : Player) (join_time : Z)
    (pattern : str) :
  sql_lower pattern = sql_lower (player_name player) →
  mkUser (player_xuid player) (player_name player) join_time 0
    ∈ search_users_by_name (save_user db player join_time) pattern
  ∧ is_Some (get_user_by_name (save_user db player join_time) pattern).
Proof.
  intros Hp.
  apply (matching_row_found (save_user db player join_time) pattern
           (player_xuid player) (mkUserRow (player_name player) join_time 0)).
  - apply lookup_insert_eq.
  - apply name_matches_own, Hp.
Qed.

Lemma saved_user_found_by_name_witness :
  sql_lower (lit "STEVE_ALT") = sql_lower (lit "steve_alt")
  ∧ mkUser (lit "1002") (lit "steve_alt") 40 0
      ∈ search_users_by_name
          (save_user example_directory (bare_player "1002" "steve_alt") 40)
          (lit "STEVE_ALT").
Proof.
  assert (H : sql_lower (lit "STEVE_ALT") = sql_lower (lit "steve_alt"))
    by (vm_compute; reflexivity).
  split; [exact H|].
  exact (proj1 (saved_user_found_by_name example_directory
                  (bare_player "1002" "steve_alt") 40 (lit "STEVE_ALT") H)).
Defined.

Lemma filter_all {A} (P : A → Prop) `{!∀ x, Decision (P x)} (l : list A) :
  (∀ x, P x) → filter P l = l.
Proof.
  intros HP. induction l as [|x l IH]; [reflexivity|].
  rewrite filter_cons_True by apply HP. rewrite IH. reflexivity.
Qed.

(** X7: with the empty pattern both look-ups see every stored user:
    [search_users_by_name] returns all of them, most recent join first,
    and [get_user_by_name] returns nothing only when the table is
    empty. *)
Theorem empty_pattern_lists_everyone (db : DB) :
  search_users_by_name db [] ≡ₚ all_users db
  ∧ StronglySorted joined_after (search_users_by_name db [])
  ∧ (get_user_by_name db [] = None ↔ users db = ∅)
  ∧ match get_user_by_name db [] with
    | Some u => u ∈ all_users db ∧ Forall (joined_after u) (all_users db)
    | None => True
    end.
Proof.
  assert (Hperm : search_users_by_name db [] ≡ₚ all_users db).
  { unfold search_users_by_name. rewrite select_users_like_perm.
    rewrite filter_all by (intros u; apply name_matches_empty). reflexivity. }
  pose proof (head_strongly_sorted joined_after _
                (select_users_like_sorted db [])) as Hhead.
  fold (search_users_by_name db []) in Hhead.
  split; [exact Hperm|].
  split; [apply select_users_like_sorted|].
  unfold get_user_by_name. fold (search_users_by_name db []).
  destruct (head (search_users_by_name db [])) as [u|] eqn:E.
  - destruct Hhead as [Hin Hall]. split.
    + split; [discriminate|]. intros Hempty.
      rewrite Hperm in Hin. unfold all_users in Hin.
      rewrite Hempty, map_to_list_empty in Hin. apply elem_of_nil in Hin.
      contradiction.
    + rewrite <- Hperm. split; assumption.
  - split; [|exact I]. split; [|reflexivity]. intros _.
    rewrite Hhead in Hperm. symmetry in Hperm.
    apply Permutation_nil_r in Hperm. unfold all_users in Hperm.
    apply fmap_nil_inv in Hperm. apply map_to_list_empty_iff, Hperm.
Qed.

Lemma with_leave_time_others (x : str) (leave_time : Z) (m : gmap str UserRow) :
  m !! x = None →
  with_leave_time x leave_time <$> (user_of_row <$> map_to_list m)
  = user_of_row <$> map_to_list m.
Proof.
  intros Hx. rewrite <- list_fmap_compose. apply Forall_fmap_ext.
  apply Forall_forall. intros [k row] Hin.
  apply elem_of_map_to_list in Hin.
  unfold compose, with_leave_time, user_of_row. cbn [fst snd user_xuid].
  destruct (decide (k = x)) as [->|Hne]; [congruence|reflexivity].
Qed.

Lemma all_users_update_leave (db : DB) (x : str) (leave_time : Z) :
  all_users (update_user_leave_time db x leave_time)
  ≡ₚ with_leave_time x leave_time <$> all_users db.
Proof.
  unfold all_users, update_user_leave_time. cbn [users].
  destruct (users db !! x) as [row|] eqn:E.
  - rewrite <- (insert_delete_id (users db) x row E) at 1.
    rewrite alter_insert_eq.
    rewrite map_to_list_insert by apply lookup_delete_eq.
    rewrite <- (map_to_list_delete (users db) x row E).
    rewrite !fmap_cons.
    rewrite (with_leave_time_others x leave_time (delete x (users db)))
      by apply lookup_delete_eq.
    unfold with_leave_time at 1. unfold user_of_row at 1 3. cbn [fst snd user_xuid].
    rewrite decide_True by reflexivity. reflexivity.
  - rewrite alter_id' by exact E.
    rewrite (with_leave_time_others x leave_time (users db) E). reflexivity.
Qed.

Lemma filter_with_leave_time (pattern x : str) (leave_time : Z) (l : list User) :
  filter (λ u, name_matches pattern (user_name u) = true)
         (with_leave_time x leave_time <$> l)
  = with_leave_time x leave_time
      <$> filter (λ u, name_matches pattern (user_name u) = true) l.
Proof.
  assert (Hname : ∀ u, user_name (with_leave_time x leave_time u) = user_name u).
  { intros u. unfold with_leave_time. destruct (decide (user_xuid u = x)); reflexivity. }
  induction l as [|u l IH]; [reflexivity|].
  rewrite fmap_cons.
  destruct (decide (name_matches pattern (user_name u) = true)) as [Hm|Hm].
  - rewrite filter_cons_True by (rewrite Hname; exact Hm).
    rewrite (filter_cons_True _ u l) by exact Hm.
    rewrite fmap_cons, IH. reflexivity.
  - rewrite filter_cons_False by (rewrite Hname; exact Hm).
    rewrite (filter_cons_False _ u l) by exact Hm.
    exact IH.
Qed.

(** X8: recording a leave time changes what a name search returns in one
    way only: the same users are found, with the same names and join
    times, and the user with that identifier now shows the new leave
    time. *)
Theorem leave_time_shows_in_lookup (db : DB) (xuid : str) (leave_time : Z)
    (pattern : str) :
  search_users_by_name (update_user_leave_time db xuid leave_time) pattern
  ≡ₚ with_leave_time xuid leave_time <$> search_users_by_name db pattern.
Proof.
  unfold search_users_by_name. rewrite !select_users_like_perm.
  rewrite all_users_update_leave. rewrite filter_with_leave_time. reflexivity.
Qed.

Example leave_time_lookup_example :
  search_users_by_name (update_user_leave_time example_directory (lit "1001") 55)
    (lit "eve")
  = [mkUser (lit "1002") (lit "steve_alt") 20 0; mkUser (lit "1001") (lit "Steve") 10 55].
Proof. vm_compute. reflexivity. Qed.

(** ** The chest view of the plugin *)

Ltac leb_cases :=
  repeat match goal with
         | |- context [(?a <=? ?b)%Z] => destruct (Z.leb_spec a b)
         | H : context [(?a <=? ?b)%Z] |- _ => destruct (Z.leb_spec a b)
         end; cbn [andb] in *.

Lemma map_slot_to_chest_inventory (which : str) (i : Z) :
  which ≠ lit "ender" →
  map_slot_to_chest i which
  = if decide (9 ≤ i ≤ 35)%Z then Some (i - 9)%Z
    else if decide (0 ≤ i ≤ 8)%Z then Some (27 + i)%Z
    else None.
Proof.
  intros Hw. unfold map_slot_to_chest, str_eqb.
  rewrite bool_decide_eq_false_2 by exact Hw.
  destruct (decide (9 ≤ i ≤ 35)%Z), (decide (0 ≤ i ≤ 8)%Z); leb_cases;
    try reflexivity; lia.
Qed.

(** X9: for a player inventory, [_map_slot_to_chest] is a one-to-one
    correspondence between the slots 0..35 and the chest positions 0..35
    (hotbar 0..8 to 27..35, main slots 9..35 to 0..26) and gives nothing
    for any other index, so no two slots are drawn on the same position;
    for the ender chest it is the identity. *)
Theorem map_slot_to_chest_one_to_one (which : str) :
  which ≠ lit "ender" →
  (∀ i c, map_slot_to_chest i which = Some c → (0 ≤ i ≤ 35 ∧ 0 ≤ c ≤ 35)%Z)
  ∧ (∀ i, (0 ≤ i ≤ 35)%Z → is_Some (map_slot_to_chest i which))
  ∧ (∀ i j c, map_slot_to_chest i which = Some c →
              map_slot_to_chest j which = Some c → i = j)
  ∧ (∀ c, (0 ≤ c ≤ 35)%Z → ∃ i, map_slot_to_chest i which = Some c)
  ∧ (∀ i, (0 ≤ i ≤ 8)%Z → map_slot_to_chest i which = Some (27 + i)%Z)
  ∧ (∀ i, (9 ≤ i ≤ 35)%Z → map_slot_to_chest i which = Some (i - 9)%Z)
  ∧ (∀ i, map_slot_to_chest i (lit "ender") = Some i).
Proof.
  intros Hw.
  split.
  { intros i c. rewrite (map_slot_to_chest_inventory which i Hw).
    repeat case_decide; intros ?; simplify_eq; lia. }
  split.
  { intros i Hi. rewrite (map_slot_to_chest_inventory which i Hw).
    repeat case_decide; try (eexists; reflexivity). lia. }
  split.
  { intros i j c. rewrite !(map_slot_to_chest_inventory which _ Hw).
    repeat case_decide; intros ? ?; simplify_eq; lia. }
  split.
  { intros c Hc. destruct (decide (c ≤ 26)%Z).
    - exists (c + 9)%Z. rewrite (map_slot_to_chest_inventory which _ Hw).
      rewrite decide_True by lia. f_equal. lia.
    - exists (c - 27)%Z. rewrite (map_slot_to_chest_inventory which _ Hw).
      rewrite decide_False by lia. rewrite decide_True by lia. f_equal. lia. }
  split.
  { intros i Hi. rewrite (map_slot_to_chest_inventory which i Hw).
    rewrite decide_False by lia. rewrite decide_True by lia. reflexivity. }
  split.
  { intros i Hi. rewrite (map_slot_to_chest_inventory which i Hw).
    rewrite decide_True by lia. reflexivity. }
  intros i. reflexivity.
Qed.

Lemma map_slot_to_chest_one_to_one_witness :
  lit "inv" ≠ lit "ender"
  ∧ map_slot_to_chest 0 (lit "inv") = Some 27%Z
  ∧ map_slot_to_chest 35 (lit "inv") = Some 26%Z.
Proof.
  assert (H : lit "inv" ≠ lit "ender") by (vm_compute; discriminate).
  split; [exact H|].
  destruct (map_slot_to_chest_one_to_one (lit "inv") H)
    as (_ & _ & _ & _ & Hhot & Hmain & _).
  split; [apply (Hhot 0%Z); lia|apply (Hmain 35%Z); lia].
Defined.

(** ** The database file name *)

Lemma ends_with_spec (suffix s : str) :
  ends_with suffix s = true ↔ ∃ stem, s = stem ++ suffix.
Proof.
  unfold ends_with. rewrite is_prefix_spec. split.
  - intros [post H]. exists (reverse post).
    apply (inj reverse). rewrite reverse_app, reverse_involutive. exact H.
  - intros [stem ->]. exists (reverse stem). apply reverse_app.
Qed.

(** X10: the file name chosen by [DatabaseManager.__init__] always ends
    in [.db]; a name that already does is kept as it is and any other
    name gets the suffix appended exactly once, so normalising twice
    changes nothing. *)
Theorem db_file_name_normalised (db_name : str) :
  (∃ stem, db_file_name db_name = stem ++ lit ".db")
  ∧ db_file_name (db_file_name db_name) = db_file_name db_name
  ∧ (db_file_name db_name = db_name ↔ ∃ stem, db_name = stem ++ lit ".db")
  ∧ (db_file_name db_name = db_name ∨ db_file_name db_name = db_name ++ lit ".db").
Proof.
  assert (Hends : ends_with (lit ".db") (db_file_name db_name) = true).
  { unfold db_file_name. destruct (ends_with (lit ".db") db_name) eqn:E; [exact E|].
    apply ends_with_spec. eexists. reflexivity. }
  split; [apply ends_with_spec, Hends|].
  split; [unfold db_file_name at 1; rewrite Hends; reflexivity|].
  split.
  - split.
    + intros H. rewrite <- H. apply ends_with_spec, Hends.
    + intros H. apply ends_with_spec in H. unfold db_file_name. rewrite H.
      reflexivity.
  - unfold db_file_name. destruct (ends_with (lit ".db") db_name); auto.
Qed.

Example db_file_name_examples :
  db_file_name (lit "inventories.db") = lit "inventories.db"
  ∧ db_file_name (lit "inventories") = lit "inventories.db"
  ∧ db_file_name (lit "") = lit ".db"
  ∧ db_file_name (lit "a.DB") = lit "a.DB.db".
Proof. vm_compute. repeat split. Qed.

(** ** Row identifiers *)

Lemma foldr_max_init (s : Z) (l : list Z) : (s ≤ foldr Z.max s l)%Z.
Proof. induction l as [|i l IH]; simpl; lia. Qed.

Lemma foldr_max_elem (s : Z) (l : list Z) :
  Forall (λ i, (i ≤ foldr Z.max s l)%Z) l.
Proof.
  induction l as [|i l IH]; constructor; simpl; [lia|].
  eapply Forall_impl; [exact IH|]. intros j Hj. simpl in Hj. lia.
Qed.

Lemma foldr_max_mono (s s' : Z) (l : list Z) :
  (s ≤ s')%Z → (foldr Z.max s l ≤ foldr Z.max s' l)%Z.
Proof. intros H. induction l as [|i l IH]; simpl; lia. Qed.

Lemma next_id_insert_row {R} (t : Table R) (r : R) :
  (next_id t < next_id (insert_row t r))%Z.
Proof.
  unfold next_id at 2. unfold insert_row. cbn [tbl_rows tbl_seq].
  rewrite fmap_app, foldr_app. cbn [fmap list_fmap foldr fst].
  pose proof (foldr_max_init (Z.max (next_id t) (next_id t)) (fst <$> tbl_rows t)).
  lia.
Qed.

(** The rows added by [executemany] get ids that were never used, each
    larger than the one before. *)
Lemma insert_many_ids {R} (t : Table R) (values : list R) :
  ∃ new, tbl_rows (insert_many t values) = tbl_rows t ++ new
         ∧ snd <$> new = values
         ∧ Forall (λ ir : Z * R, (next_id t ≤ ir.1)%Z) new
         ∧ NoDup (fst <$> new)
         ∧ (tbl_seq t ≤ tbl_seq (insert_many t values))%Z.
Proof.
  revert t. induction values as [|v values IH]; intros t.
  - exists []. simpl. rewrite app_nil_r. repeat split; try constructor. lia.
  - destruct (IH (insert_row t v)) as (new & Hrows & Hnew & Hids & Hnd & Hseq).
    pose proof (next_id_insert_row t v) as Hnext.
    exists ((next_id t, v) :: new).
    change (insert_many t (v :: values)) with (insert_many (insert_row t v) values).
    split; [rewrite Hrows; simpl; rewrite <- app_assoc; reflexivity|].
    split; [rewrite fmap_cons, Hnew; reflexivity|].
    split.
    { constructor; [simpl; lia|].
      eapply Forall_impl; [exact Hids|]. intros ir H. simpl in H. lia. }
    split.
    { rewrite fmap_cons. apply NoDup_cons. split; [|exact Hnd].
      intros Hin. apply list_elem_of_fmap in Hin as (ir & Hir & Hin).
      rewrite Forall_forall in Hids. specialize (Hids ir Hin).
      simpl in Hir, Hids. lia. }
    cbn [insert_row tbl_seq] in Hseq.
    pose proof (foldr_max_init (tbl_seq t) (fst <$> tbl_rows t)).
    unfold next_id in Hseq at 1. lia.
Qed.

Lemma insert_row_recorded {R} (t : Table R) (r : R) :
  Forall (λ ir : Z * R, (ir.1 ≤ tbl_seq t)%Z) (tbl_rows t) →
  Forall (λ ir : Z * R, (ir.1 ≤ tbl_seq (insert_row t r))%Z)
         (tbl_rows (insert_row t r)).
Proof.
  intros H. unfold insert_row. cbn [tbl_rows tbl_seq].
  pose proof (foldr_max_init (tbl_seq t) (fst <$> tbl_rows t)) as Hinit.
  apply Forall_app. split.
  - eapply Forall_impl; [exact H|]. intros ir Hir. cbv beta in Hir.
    unfold next_id. lia.
  - constructor; [cbn [fst]; lia|constructor].
Qed.

Lemma insert_many_recorded {R} (t : Table R) (values : list R) :
  Forall (λ ir : Z * R, (ir.1 ≤ tbl_seq t)%Z) (tbl_rows t) →
  Forall (λ ir : Z * R, (ir.1 ≤ tbl_seq (insert_many t values))%Z)
         (tbl_rows (insert_many t values)).
Proof.
  revert t. induction values as [|v values IH]; intros t H; [exact H|].
  change (insert_many t (v :: values)) with (insert_many (insert_row t v) values).
  apply IH, insert_row_recorded, H.
Qed.

Lemma replace_rows_ids {R} (xuid_of : R → option str) (x : str)
    (values : list R) (t : Table R) :
  ids_recorded t →
  Forall (λ v, xuid_of v = Some x) values →
  ids_recorded (replace_rows xuid_of x values t)
  ∧ Forall (λ ir : Z * R, xuid_of ir.2 = Some x → (tbl_seq t < ir.1)%Z)
           (tbl_rows (replace_rows xuid_of x values t))
  ∧ (tbl_seq t ≤ tbl_seq (replace_rows xuid_of x values t))%Z.
Proof.
  intros [Hnd Hrec] Hvs.
  set (t' := delete_where xuid_of x t).
  assert (Hkept : fst <$> tbl_rows t' `sublist_of` fst <$> tbl_rows t).
  { unfold t', delete_where. cbn [tbl_rows]. apply fmap_sublist, sublist_filter. }
  assert (Hkeptx : Forall (λ ir : Z * R, xuid_of ir.2 = Some x → (tbl_seq t < ir.1)%Z)
                     (tbl_rows t')).
  { unfold t', delete_where. cbn [tbl_rows]. apply Forall_forall.
    intros ir Hin Hx. apply list_elem_of_filter in Hin as [Hne _]. contradiction. }
  assert (Hrec' : Forall (λ ir : Z * R, (ir.1 ≤ tbl_seq t')%Z) (tbl_rows t')).
  { unfold t', delete_where. cbn [tbl_rows tbl_seq]. apply Forall_forall.
    intros ir Hin. apply list_elem_of_filter in Hin as [_ Hin].
    rewrite Forall_forall in Hrec. apply Hrec, Hin. }
  assert (Hrep : replace_rows xuid_of x values t = insert_many t' values).
  { unfold replace_rows. fold t'. destruct values; reflexivity. }
  rewrite Hrep. unfold ids_recorded.
  pose proof (insert_many_recorded t' values Hrec') as Hrecorded.
  destruct (insert_many_ids t' values) as (new & Hrows & _ & Hids & Hndnew & Hseq).
  rewrite Hrows in Hrecorded |- *.
  assert (Hbound : Forall (λ i, (i < next_id t')%Z) (fst <$> tbl_rows t')).
  { eapply Forall_impl; [apply (foldr_max_elem (tbl_seq t'))|].
    intros i Hi. unfold next_id. cbv beta in Hi. lia. }
  assert (Hseq' : (tbl_seq t < next_id t')%Z).
  { unfold next_id. pose proof (foldr_max_init (tbl_seq t') (fst <$> tbl_rows t')).
    change (tbl_seq t') with (tbl_seq t) in *. lia. }
  split; [split|split].
  - rewrite fmap_app. apply NoDup_app. split; [|split].
    + eapply sublist_NoDup; [exact Hnd|exact Hkept].
    + intros i Hi1 Hi2. rewrite Forall_forall in Hbound. specialize (Hbound i Hi1).
      apply list_elem_of_fmap in Hi2 as (ir & -> & Hin).
      rewrite Forall_forall in Hids. specialize (Hids ir Hin). simpl in Hids. lia.
    + exact Hndnew.
  - exact Hrecorded.
  - apply Forall_app. split; [exact Hkeptx|].
    eapply Forall_impl; [exact Hids|]. intros ir Hi _. simpl in Hi. lia.
  - exact Hseq.
Qed.

(** X11: in a snapshot table whose row ids are pairwise distinct and not
    above the id counter, as AUTOINCREMENT keeps them, a save leaves them
    so; the ids of the player's new rows are larger than the counter and
    so than the id of every row the table held, the player's deleted rows
    included: an id is never used again; and the counter never decreases.
    The tables of a fresh store are in that state. *)
Theorem save_keeps_row_ids_distinct (db : DB) (player : Player) :
  ids_recorded (inventories db) →
  ids_recorded (ender_chests db) →
  let x := player_xuid player in
  (ids_recorded (inventories (save_inventory db player))
   ∧ (∀ old new, old ∈ tbl_rows (inventories db) →
                 new ∈ tbl_rows (inventories (save_inventory db player)) →
                 inv_xuid new.2 = Some x → (old.1 ≤ tbl_seq (inventories db) < new.1)%Z)
   ∧ (tbl_seq (inventories db) ≤ tbl_seq (inventories (save_inventory db player)))%Z)
  ∧ (ids_recorded (ender_chests (save_enderchest db player))
     ∧ (∀ old new, old ∈ tbl_rows (ender_chests db) →
                   new ∈ tbl_rows (ender_chests (save_enderchest db player)) →
                   ec_xuid new.2 = Some x → (old.1 ≤ tbl_seq (ender_chests db) < new.1)%Z)
     ∧ (tbl_seq (ender_chests db) ≤ tbl_seq (ender_chests (save_enderchest db player)))%Z)
  ∧ ids_recorded (inventories empty_db) ∧ ids_recorded (ender_chests empty_db).
Proof.
  intros Hinv Hec x.
  destruct (replace_rows_ids inv_xuid x (inventory_values player)
              (inventories db) Hinv (inventory_values_xuid player)) as (H1 & H2 & H3).
  destruct (replace_rows_ids ec_xuid x (enderchest_values player)
              (ender_chests db) Hec (enderchest_values_xuid player)) as (H4 & H5 & H6).
  split; [|split].
  - split; [exact H1|]. split; [|exact H3].
    intros old new Hold Hnew Hx. destruct Hinv as [_ Hrec].
    rewrite Forall_forall in Hrec, H2. split; [apply Hrec, Hold|apply (H2 new Hnew Hx)].
  - split; [exact H4|]. split; [|exact H6].
    intros old new Hold Hnew Hx. destruct Hec as [_ Hrec].
    rewrite Forall_forall in Hrec, H5. split; [apply Hrec, Hold|apply (H5 new Hnew Hx)].
  - split; (split; [apply NoDup_nil_2|constructor]).
Qed.

Lemma save_keeps_row_ids_distinct_witness :
  ids_recorded (inventories (save_inventory empty_db loaded_player))
  ∧ ids_recorded (ender_chests (save_inventory empty_db loaded_player))
  ∧ ids_recorded
      (inventories (save_inventory (save_inventory empty_db loaded_player)
                      helmet_wearer)).
Proof.
  assert (H1 : ids_recorded (inventories (save_inventory empty_db loaded_player)))
    by (apply (bool_decide_unpack _); vm_compute; exact I).
  assert (H2 : ids_recorded (ender_chests (save_inventory empty_db loaded_player)))
    by (apply (bool_decide_unpack _); vm_compute; exact I).
  split; [exact H1|]. split; [exact H2|].
  exact (proj1 (proj1 (save_keeps_row_ids_distinct
                         (save_inventory empty_db loaded_player) helmet_wearer H1 H2))).
Defined.

(** Ids after a save, a save of somebody else and a second save: the
    first player's rows move from 1..4 to 6..9. *)
Example row_ids_example :
  let db1 := save_inventory empty_db loaded_player in
  let db2 := save_inventory db1 helmet_wearer in
  let db3 := save_inventory db2 loaded_player in
  fst <$> tbl_rows (inventories db1) = [1; 2; 3; 4]%Z
  ∧ fst <$> tbl_rows (inventories db2) = [1; 2; 3; 4; 5]%Z
  ∧ fst <$> tbl_rows (inventories db3) = [5; 6; 7; 8; 9]%Z
  ∧ tbl_seq (inventories db3) = 9%Z.
Proof. vm_compute. repeat split. Qed.

(** ** The text in the JSON columns *)

Lemma hex_digit_printable (n : N) : (n < 16)%N → printable (hex_digit n).
Proof.
  intros H. unfold printable, hex_digit. destruct (N.ltb_spec n 10); lia.
Qed.

Lemma hex4_printable (n : N) : Forall printable (hex4 n).
Proof.
  unfold hex4. repeat constructor;
    apply hex_digit_printable, N.mod_lt; discriminate.
Qed.

Lemma escape_char_printable (c : N) : Forall printable (escape_char c).
Proof.
  assert (Hb : printable BACKSLASH) by (unfold printable, BACKSLASH; lia).
  assert (Hu : printable 117%N) by (unfold printable; lia).
  unfold escape_char.
  repeat match goal with
         | |- context [if (c =? ?k)%N then _ else _] =>
             destruct (c =? k)%N;
             [repeat constructor; unfold printable, BACKSLASH, QUOTE; lia|]
         end.
  destruct ((32 <=? c)%N && (c <=? 126)%N) eqn:E.
  { apply andb_true_iff in E as [E1 E2].
    apply N.leb_le in E1. apply N.leb_le in E2.
    repeat constructor; unfold printable; lia. }
  destruct (c <? 65536)%N.
  - repeat (apply Forall_cons; split; [assumption|]). apply hex4_printable.
  - cbv zeta. apply Forall_app. split;
      repeat (apply Forall_cons; split; [assumption|]); apply hex4_printable.
Qed.

Lemma encode_basestring_ascii_printable (s : str) :
  Forall printable (encode_basestring_ascii s).
Proof.
  unfold encode_basestring_ascii.
  apply Forall_cons. split; [unfold printable, QUOTE; lia|].
  apply Forall_app. split; [|repeat constructor; unfold printable, QUOTE; lia].
  induction s as [|c s IH]; [constructor|].
  rewrite fmap_cons. cbn [concat]. apply Forall_app. split; [|exact IH].
  apply escape_char_printable.
Qed.

Lemma str_of_int_printable (z : Z) : Forall printable (str_of_int z).
Proof.
  assert (Hd : ∀ u, Forall printable (digits_of_uint u)).
  { intros u. eapply Forall_impl; [apply digits_of_uint_digits|].
    intros c Hc. unfold is_digit in Hc. apply andb_true_iff in Hc as [H1 H2].
    apply N.leb_le in H1. apply N.leb_le in H2. unfold printable. lia. }
  unfold str_of_int. destruct (Z.to_int z); [apply Hd|].
  apply Forall_cons. split; [unfold printable; lia|apply Hd].
Qed.

Lemma join_printable (sep : str) (parts : list str) :
  Forall printable sep → Forall (Forall printable) parts →
  Forall printable (join sep parts).
Proof.
  intros Hsep Hparts. induction Hparts as [|p parts Hp Hparts IH]; [constructor|].
  destruct parts as [|q parts]; [exact Hp|].
  rewrite join_cons2. apply Forall_app. split; [exact Hp|].
  apply Forall_app. split; [exact Hsep|exact IH].
Qed.

Lemma literal_printable (s : string) :
  bool_decide (Forall printable (lit s)) = true → Forall printable (lit s).
Proof. apply bool_decide_eq_true_1. Qed.

Lemma json_dumps_printable (v : pyval) : Forall printable (json_dumps v).
Proof.
  assert (Hsep : Forall printable (lit ", ")) by (apply literal_printable; reflexivity).
  destruct v as [|d|l]; cbn [json_dumps].
  - apply literal_printable. reflexivity.
  - apply Forall_app. split; [apply literal_printable; reflexivity|].
    apply Forall_app. split; [|apply literal_printable; reflexivity].
    apply join_printable; [exact Hsep|].
    apply Forall_fmap, Forall_true. intros [k z]. unfold compose, dumps_pair.
    cbn [fst snd]. apply Forall_app. split; [apply encode_basestring_ascii_printable|].
    apply Forall_app. split; [apply literal_printable; reflexivity|].
    apply str_of_int_printable.
  - apply Forall_app. split; [apply literal_printable; reflexivity|].
    apply Forall_app. split; [|apply literal_printable; reflexivity].
    apply join_printable; [exact Hsep|].
    apply Forall_fmap, Forall_true. intros s. apply encode_basestring_ascii_printable.
Qed.

Lemma json_dumps_sentinel (v : pyval) : json_dumps v ∈ SENTINELS ↔ v = PNone.
Proof.
  destruct v as [|d|l]; cbn [json_dumps].
  - split; [reflexivity|]. intros _. left.
  - split; [|discriminate]. intros Hin. exfalso.
    change (lit "{") with [123%N] in Hin.
    change ([123%N] ++ ?t) with (123%N :: t) in Hin.
    revert Hin. apply not_sentinel; discriminate.
  - split; [|discriminate]. intros Hin. exfalso.
    change (lit "[") with [91%N] in Hin.
    change ([91%N] ++ ?t) with (91%N :: t) in Hin.
    revert Hin. apply not_sentinel; discriminate.
Qed.

(** X12: the enchantment and lore texts that a save writes consist of
    printable ASCII characters only, whatever the names and lore lines
    contain, and such a text is one the decoder refuses to parse
    ([null], [0] or empty) only when the attribute was [None]: the guard of
    the decoder never hides a mapping or a list that was written. *)
Theorem stored_json_text (player : Player) (slot_type : str) (slot : Z)
    (item : ItemStack) :
  ∃ enchants lore,
    inv_enchants (inventory_row player slot_type slot item) = Some enchants
    ∧ inv_lore (inventory_row player slot_type slot item) = Some lore
    ∧ ec_enchants (enderchest_row player slot item) = Some enchants
    ∧ ec_lore (enderchest_row player slot item) = Some lore
    ∧ Forall printable enchants
    ∧ Forall printable lore
    ∧ (enchants ∈ SENTINELS ↔ extract_enchants item = PNone)
    ∧ (lore ∈ SENTINELS ↔ extract_lore item = PNone).
Proof.
  exists (json_dumps (extract_enchants item)), (json_dumps (extract_lore item)).
  repeat (split; [reflexivity|]).
  split; [apply json_dumps_printable|].
  split; [apply json_dumps_printable|].
  split; apply json_dumps_sentinel.
Qed.
